(** * Asset generation pipeline of NexusPVR: [scripts/generate_assets.py]

    A shallow embedding of the asset generator and the proofs of its
    specification.

    Conventions of the embedding.

    - Python [int] is [Z].  A Python [float] is modelled by exact
      arithmetic: by [Q] where the script only adds, subtracts, multiplies
      and divides (all the geometry and the colour fractions), so that
      those parts evaluate, and by [R] inside [create_radial_gradient],
      which takes a square root and a fractional power.  [int(x)] is
      truncation toward zero.  Where the script prints a float (the
      [.3f] components of the colorsets) the digits depend on the binary
      value: there the float is the binary64 number nearest to the
      fraction written in the script ([binary64]).
    - A Pillow image is its mode, its size and its raster, the raster being
      a function from pixel coordinates to band tuples.  [ImageDraw]
      methods mutate the image they were created on; here they return the
      updated image.  The Pillow operations whose per-pixel result the
      script's logic never looks at (Gaussian blur, resampling, stroked
      lines and outlines) are the fields of the class [Pillow]; the others
      are defined, shapes being filled on the closed region they bound.
    - The file system and the record of composer calls and file opens form
      the [world] that [generate] threads; an exception is a [Raise]
      result.  Creating a directory and writing a file always succeed: the
      model has no permissions, no full disk and no file standing where a
      directory is needed.  Console progress lines are not part of the
      model. *)

From Stdlib Require Import ZArith QArith Qround Qabs Reals Lra Lia.
From Stdlib Require Import List String Ascii.
From Stdlib Require Import DecimalString.
From Stdlib Require Lqa.
From stdpp Require Import gmap strings list.

Local Open Scope Z_scope.

(** ** Numbers *)

(** [int(q)] on a float held as a rational: truncation toward zero. *)
Definition py_int (q : Q) : Z := Z.quot (Qnum q) (Zpos (Qden q)).
Arguments py_int q%_Q.

(** [int(r)] on a float held as a real. *)
Definition py_int_R (r : R) : Z :=
  if Rle_dec 0 r then Int_part r else - Int_part (- r).

(** [x ** y] for a float base [x >= 0] and an exponent [y > 0]. *)
Definition float_pow (x y : R) : R :=
  if Rle_dec x 0 then 0%R else Rpower x y.

(** [for i in range(n): s = body(i, s)]. *)
Definition for_range {S : Type} (n : Z) (body : Z -> S -> S) (s : S) : S :=
  fold_left (fun acc i => body (Z.of_nat i) acc) (seq 0 (Z.to_nat n)) s.

(** [range(start, stop, step)] for a positive step, as the list it yields. *)
Fixpoint range_from (fuel : nat) (start stop step : Z) : list Z :=
  match fuel with
  | O => []
  | Datatypes.S k =>
      if start <? stop then start :: range_from k (start + step) stop step
      else []
  end.

Definition py_range (start stop step : Z) : list Z :=
  range_from (Z.to_nat (stop - start)) start stop step.

(** ** Images *)

Inductive mode := L | RGB | RGBA.

(** A pixel is the tuple of its bands: one for [L], three for [RGB], four
    for [RGBA]. *)
Definition pixel := list Z.

Definition rgb := (Z * Z * Z)%type.

Definition tuple3 (c : rgb) : list Z :=
  let '(r, g, b) := c in [r; g; b].

Record image := {
  im_mode : mode;
  im_width : Z;
  im_height : Z;
  im_px : Z -> Z -> pixel
}.

Definition mode_eqb (a b : mode) : bool :=
  match a, b with
  | L, L | RGB, RGB | RGBA, RGBA => true
  | _, _ => false
  end.

Definition in_bounds (img : image) (x y : Z) : bool :=
  (0 <=? x) && (x <? im_width img) && (0 <=? y) && (y <? im_height img).

(** [img.getpixel((x, y))]: a negative coordinate counts from the far
    side, as Pillow's pixel access has it; [None] stands for the
    [IndexError] outside the raster. *)
Definition getpixel (img : image) (x y : Z) : option pixel :=
  let x := if x <? 0 then im_width img + x else x in
  let y := if y <? 0 then im_height img + y else y in
  if in_bounds img x y then Some (im_px img x y) else None.

(** [pixels[x, y] = v] on the access object of [img.load()].  The script
    only stores inside the raster. *)
Definition putpixel (img : image) (x y : Z) (v : pixel) : image :=
  if in_bounds img x y then
    {| im_mode := im_mode img; im_width := im_width img;
       im_height := im_height img;
       im_px := fun x' y' =>
         if (x' =? x) && (y' =? y) then v else im_px img x' y' |}
  else img.

(** The ink of a colour argument on an image of mode [m]: an [RGB] triple
    drawn on an [RGBA] image is opaque, the alpha of a quadruple is dropped
    on an [RGB] image, the integer [0] is zero in every band. *)
Definition ink (m : mode) (c : list Z) : pixel :=
  match m, c with
  | L, v :: _ => [v]
  | RGB, [v] => [v; v; v]
  | RGB, r :: g :: b :: _ => [r; g; b]
  | RGBA, [v] => [v; v; v; v]
  | RGBA, [r; g; b] => [r; g; b; 255]
  | RGBA, r :: g :: b :: a :: _ => [r; g; b; a]
  | _, _ => c
  end.

(** [Image.new(mode, (w, h), color)], the colour defaulting to [0]. *)
Definition Image_new (m : mode) (w h : Z) (color : option (list Z)) : image :=
  let v := ink m (default [0] color) in
  {| im_mode := m; im_width := w; im_height := h; im_px := fun _ _ => v |}.

(** ** Drawing helpers: the radial gradient *)

Definition gradient_ratio (width height x y : Z) : R :=
  let cx := (IZR width / 2)%R in
  let cy := (IZR height / 2)%R in
  let max_dist := sqrt ((IZR width / 2) ^ 2 + (IZR height / 2) ^ 2)%R in
  let dist := sqrt ((IZR x - cx) ^ 2 + (IZR y - cy) ^ 2)%R in
  float_pow (Rmin (dist / max_dist) 1) 0.8.

Definition gradient_channel (c e : Z) (ratio : R) : Z :=
  py_int_R (IZR c + (IZR e - IZR c) * ratio).

Definition gradient_pixel (width height : Z) (center_color edge_color : rgb)
    (x y : Z) : pixel :=
  let '(c0, c1, c2) := center_color in
  let '(e0, e1, e2) := edge_color in
  let ratio := gradient_ratio width height x y in
  [gradient_channel c0 e0 ratio; gradient_channel c1 e1 ratio;
   gradient_channel c2 e2 ratio].

(** [create_radial_gradient]: the two nested loops store every pixel. *)
Definition create_radial_gradient (width height : Z)
    (center_color edge_color : rgb) : image :=
  let img := Image_new RGB width height None in
  for_range height (fun y img =>
    for_range width (fun x img =>
      putpixel img x y
        (gradient_pixel width height center_color edge_color x y)) img) img.

(** ** The Pillow operations the script calls *)

(** Operations taken as they are: the script never inspects their pixels. *)
Class Pillow := {
  (** [img.filter(ImageFilter.GaussianBlur(radius))] *)
  gaussian_blur : Z -> image -> image;
  (** [img.resize((w, h), Image.LANCZOS)] *)
  resize_lanczos : image -> Z -> Z -> image;
  (** [draw.line([p, q], fill, width)] *)
  draw_line : image -> (Z * Z) -> (Z * Z) -> list Z -> Z -> image;
  (** [draw.rounded_rectangle(box, radius, outline=..., width=...)] *)
  draw_rounded_rectangle_outline :
    image -> (Z * Z * Z * Z) -> Z -> list Z -> Z -> image
}.

(** Storing the ink of [c] on every pixel a shape covers. *)
Definition paint (cover : Z -> Z -> bool) (c : list Z) (img : image) : image :=
  let v := ink (im_mode img) c in
  {| im_mode := im_mode img; im_width := im_width img;
     im_height := im_height img;
     im_px := fun x y => if cover x y then v else im_px img x y |}.

Definition cross (a b p : Z * Z) : Z :=
  (fst b - fst a) * (snd p - snd a) - (snd b - snd a) * (fst p - fst a).

Fixpoint polygon_edges (first : Z * Z) (pts : list (Z * Z))
    : list ((Z * Z) * (Z * Z)) :=
  match pts with
  | [] => []
  | [p] => [(p, first)]
  | p :: ((q :: _) as tl) => (p, q) :: polygon_edges first tl
  end.

(** The closed region of a convex polygon: the point lies on one side of
    every edge.  The script draws triangles only. *)
Definition in_convex_polygon (pts : list (Z * Z)) (x y : Z) : bool :=
  match pts with
  | [] => false
  | p0 :: _ =>
      let cs := map (fun e => cross (fst e) (snd e) (x, y))
                    (polygon_edges p0 pts) in
      forallb (fun c => 0 <=? c) cs || forallb (fun c => c <=? 0) cs
  end.

(** [draw.polygon(xy, fill)] on integer vertices. *)
Definition draw_polygon_Z (img : image) (xy : list (Z * Z)) (fill : list Z)
    : image :=
  paint (in_convex_polygon xy) fill img.

(** [draw.polygon(xy, fill)]: Pillow truncates the vertices to integers. *)
Definition draw_polygon (img : image) (xy : list (Q * Q)) (fill : list Z)
    : image :=
  draw_polygon_Z img (map (fun p => (py_int (fst p), py_int (snd p))) xy) fill.

Definition in_ellipse (x0 y0 x1 y1 x y : Z) : bool :=
  let a := x1 - x0 in
  let b := y1 - y0 in
  (x0 <=? x) && (x <=? x1) && (y0 <=? y) && (y <=? y1) &&
  ((2 * x - (x0 + x1)) ^ 2 * b ^ 2 + (2 * y - (y0 + y1)) ^ 2 * a ^ 2
     <=? a ^ 2 * b ^ 2).

(** [draw.ellipse([x0, y0, x1, y1], fill)] on an integer box. *)
Definition draw_ellipse_Z (img : image) (box : Z * Z * Z * Z) (fill : list Z)
    : image :=
  let '(x0, y0, x1, y1) := box in
  paint (in_ellipse x0 y0 x1 y1) fill img.

(** [draw.ellipse([x0, y0, x1, y1], fill)], the box truncated to integers. *)
Definition draw_ellipse (img : image) (box : Q * Q * Q * Q) (fill : list Z)
    : image :=
  let '(x0, y0, x1, y1) := box in
  draw_ellipse_Z img (py_int x0, py_int y0, py_int x1, py_int y1) fill.

Definition in_rectangle (x0 y0 x1 y1 x y : Z) : bool :=
  (x0 <=? x) && (x <=? x1) && (y0 <=? y) && (y <=? y1).

(** [draw.rectangle([x0, y0, x1, y1], fill)]. *)
Definition draw_rectangle (img : image) (box : Z * Z * Z * Z) (fill : list Z)
    : image :=
  let '(x0, y0, x1, y1) := box in
  paint (in_rectangle x0 y0 x1 y1) fill img.

(** A rectangle whose four corners are cut to quarter discs of radius [r]. *)
Definition in_rounded_rectangle (x0 y0 x1 y1 r x y : Z) : bool :=
  let r := Z.max 0 (Z.min r (Z.min ((x1 - x0) / 2) ((y1 - y0) / 2))) in
  let nx := Z.max (x0 + r) (Z.min x (x1 - r)) in
  let ny := Z.max (y0 + r) (Z.min y (y1 - r)) in
  in_rectangle x0 y0 x1 y1 x y &&
  ((x - nx) ^ 2 + (y - ny) ^ 2 <=? r ^ 2).

(** [draw.rounded_rectangle([x0, y0, x1, y1], radius, fill)]. *)
Definition draw_rounded_rectangle (img : image) (box : Z * Z * Z * Z)
    (radius : Z) (fill : list Z) : image :=
  let '(x0, y0, x1, y1) := box in
  paint (in_rounded_rectangle x0 y0 x1 y1 radius) fill img.

(** The conversions the script performs: adding an opaque alpha band and
    dropping the alpha band. *)
Definition convert_pixel (from to : mode) (p : pixel) : pixel :=
  match from, to, p with
  | RGB, RGBA, [r; g; b] => [r; g; b; 255]
  | RGBA, RGB, [r; g; b; _] => [r; g; b]
  | L, RGB, [v] => [v; v; v]
  | L, RGBA, [v] => [v; v; v; 255]
  | _, _, _ => p
  end.

(** [img.convert(mode)]. *)
Definition convert (img : image) (m : mode) : image :=
  {| im_mode := m; im_width := im_width img; im_height := im_height img;
     im_px := fun x y => convert_pixel (im_mode img) m (im_px img x y) |}.

(** Pillow's rounded division by 255 and its 8-bit blend. *)
Definition muldiv255 (a b : Z) : Z :=
  let tmp := a * b + 128 in Z.shiftr (Z.shiftr tmp 8 + tmp) 8.

Definition blend8 (mask in1 in2 : Z) : Z :=
  muldiv255 in1 (255 - mask) + muldiv255 in2 mask.

Fixpoint zip_bands (f : Z -> Z -> Z) (p q : pixel) : pixel :=
  match p, q with
  | a :: p', b :: q' => f a b :: zip_bands f p' q'
  | _, _ => []
  end.

(** The mask value of a mask pixel: the [L] band, or the alpha band of an
    [RGBA] mask. *)
Definition mask_value (p : pixel) : Z := List.last p 0.

(** [dst.paste(src, (ox, oy), mask)]: the source is converted to the mode
    of the destination, then copied, or blended through the mask. *)
Definition paste (dst src : image) (box : Z * Z) (mask : option image)
    : image :=
  let '(ox, oy) := box in
  let src' := if mode_eqb (im_mode src) (im_mode dst) then src
              else convert src (im_mode dst) in
  {| im_mode := im_mode dst; im_width := im_width dst;
     im_height := im_height dst;
     im_px := fun x y =>
       let u := x - ox in
       let v := y - oy in
       if (0 <=? u) && (u <? im_width src) && (0 <=? v) && (v <? im_height src)
       then match mask with
            | None => im_px src' u v
            | Some m =>
                zip_bands (blend8 (mask_value (im_px m u v)))
                          (im_px dst x y) (im_px src' u v)
            end
       else im_px dst x y |}.

Definition shift_for_div255 (a : Z) : Z := Z.shiftr (Z.shiftr a 8 + a) 8.

(** One pixel of [Image.alpha_composite]: Pillow's integer "over". *)
Definition composite_pixel (dst src : pixel) : pixel :=
  match dst, src with
  | [dr; dg; db; da], [sr; sg; sb; sa] =>
      if sa =? 0 then dst
      else
        let blend := da * (255 - sa) in
        let outa255 := sa * 255 + blend in
        let coef1 := sa * 255 * 255 * 128 / outa255 in
        let coef2 := 255 * 128 - coef1 in
        let ch s d :=
          Z.shiftr (shift_for_div255 (s * coef1 + d * coef2 + 128 * 128)) 7 in
        [ch sr dr; ch sg dg; ch sb db; shift_for_div255 (outa255 + 128)]
  | _, _ => dst
  end.

(** [Image.alpha_composite(dst, src)] on two [RGBA] images of one size. *)
Definition alpha_composite (dst src : image) : image :=
  {| im_mode := RGBA; im_width := im_width dst; im_height := im_height dst;
     im_px := fun x y => composite_pixel (im_px dst x y) (im_px src x y) |}.

(** ** Brand palettes *)

(** A path is the list of its components; [os.path.join] appends. *)
Definition path := list string.

Record brand := {
  name : string;
  assets_dir : path;
  gradient_center : rgb;
  gradient_edge : rgb;
  recording_dot : rgb;
  accent_rgb : option (Q * Q * Q);
  launch_bg_rgb : Q * Q * Q
}.

Definition nexuspvr : brand := {|
  name := "NexusPVR";
  assets_dir := ["NexusPVR"; "Assets.xcassets"];
  gradient_center := (42, 107, 153);
  gradient_edge := (15, 35, 60);
  recording_dot := (233, 30, 99);
  accent_rgb := None;
  launch_bg_rgb := (0.059, 0.059, 0.059)%Q
|}.

Definition dispatcherpvr : brand := {|
  name := "DispatcherPVR";
  assets_dir := ["DispatcherPVR"; "Assets.xcassets"];
  gradient_center := (55, 130, 115);
  gradient_edge := (12, 38, 33);
  recording_dot := (217, 72, 72);
  accent_rgb := Some (0.263, 0.561, 0.498)%Q;
  launch_bg_rgb := (0.071, 0.071, 0.078)%Q
|}.

(** The dictionary [BRANDS], in its insertion order. *)
Definition BRANDS : list (string * brand) :=
  [("nexuspvr"%string, nexuspvr); ("dispatcherpvr"%string, dispatcherpvr)].

Fixpoint dict_get {V : Type} (d : list (string * V)) (k : string) : option V :=
  match d with
  | [] => None
  | (k', v) :: d' => if String.eqb k' k then Some v else dict_get d' k
  end.

(** ** Drawing helpers: play button and recording dot *)

Definition draw_play_button (draw : image) (cx cy scale : Q)
    (color : list Z) : image :=
  let s := (70 * scale)%Q in
  let px := (cx - s * 0.15)%Q in
  let points := [ (px - s * 0.45, cy - s * 0.6);
                  (px - s * 0.45, cy + s * 0.6);
                  (px + s * 0.55, cy) ]%Q in
  draw_polygon draw points color.

Definition white : list Z := [255; 255; 255; 255].

Definition draw_recording_dot (draw : image) (cx cy scale : Q)
    (dot_color : rgb) : image :=
  let r := (12 * scale)%Q in
  let dx := (cx + 55 * scale)%Q in
  let dy := (cy - 45 * scale)%Q in
  draw_ellipse draw (dx - r, dy - r, dx + r, dy + r)%Q
               (tuple3 dot_color ++ [255]).

(** ** Asset generators: the gradient play-button theme *)

Definition Qz (z : Z) : Q := inject_Z z.

Definition create_app_icon (size : Z) (b : brand) : image :=
  let bg := create_radial_gradient size size (gradient_center b)
                                   (gradient_edge b) in
  let mask := Image_new L size size (Some [0]) in
  let mask := draw_rounded_rectangle mask (0, 0, size, size)
                (py_int (Qz size * 0.22)) [255] in
  let rounded := Image_new RGB size size (Some (tuple3 (gradient_edge b))) in
  let rounded := paste rounded bg (0, 0) (Some mask) in
  let overlay := Image_new RGBA size size (Some [0; 0; 0; 0]) in
  let s := (Qz size / 1024 * 2.5)%Q in
  let overlay := draw_play_button overlay (Qz size / 2) (Qz size / 2) s white in
  let overlay := draw_recording_dot overlay (Qz size / 2) (Qz size / 2) s
                   (recording_dot b) in
  let result := Image_new RGBA size size None in
  let result := paste result rounded (0, 0) None in
  convert (alpha_composite result overlay) RGB.

Definition create_tvos_back (width height : Z) (b : brand) : image :=
  create_radial_gradient width height (gradient_center b) (gradient_edge b).

Definition create_tvos_front (width height : Z) (b : brand) : image :=
  let img := Image_new RGBA width height (Some [0; 0; 0; 0]) in
  let s := (Qz width / 400)%Q in
  let img := draw_play_button img (Qz width / 2) (Qz height / 2) s white in
  draw_recording_dot img (Qz width / 2) (Qz height / 2) s (recording_dot b).

Definition create_tvos_middle (width height : Z) : image :=
  Image_new RGBA width height (Some [0; 0; 0; 0]).

(** [tuple(int(c * 255) for c in rgb)]. *)
Definition scale255 (c : Q * Q * Q) : list Z :=
  let '(r, g, b) := c in
  [py_int (r * 255); py_int (g * 255); py_int (b * 255)].

Definition create_shelf_image `{Pillow} (width height : Z) (b : brand)
    : image :=
  let bg_color := scale255 (launch_bg_rgb b) in
  let img := Image_new RGB width height (Some bg_color) in
  let icon_h := py_int (Qz height * 0.6) in
  let icon_w := icon_h in
  let icon_bg := create_radial_gradient icon_w icon_h (gradient_center b)
                                        (gradient_edge b) in
  let mask := Image_new L icon_w icon_h (Some [0]) in
  let mask := draw_rounded_rectangle mask (0, 0, icon_w, icon_h)
                (py_int (Qz icon_h * 0.15)) [255] in
  let glow_size := py_int (Qz icon_h * 1.4) in
  let glow := Image_new RGBA glow_size glow_size (Some [0; 0; 0; 0]) in
  let '(gc0, gc1, gc2) := gradient_center b in
  let glow := draw_ellipse_Z glow (0, 0, glow_size, glow_size)
                [gc0; gc1; gc2; 30] in
  let glow := gaussian_blur (glow_size / 4) glow in
  let img_rgba := convert img RGBA in
  let glow_layer := Image_new RGBA width height (Some [0; 0; 0; 0]) in
  let glow_layer := paste glow_layer glow
                      ((width - glow_size) / 2, (height - glow_size) / 2)
                      None in
  let img_rgba := alpha_composite img_rgba glow_layer in
  let ix := (width - icon_w) / 2 in
  let iy := (height - icon_h) / 2 in
  let img_rgba := paste img_rgba icon_bg (ix, iy) (Some mask) in
  let s := (Qz icon_h / 400)%Q in
  let img_rgba := draw_play_button img_rgba (Qz width / 2) (Qz height / 2) s
                    white in
  let img_rgba := draw_recording_dot img_rgba (Qz width / 2) (Qz height / 2) s
                    (recording_dot b) in
  convert img_rgba RGB.

Definition create_launch_logo (size : Z) (b : brand) : image :=
  let bg := create_radial_gradient size size (gradient_center b)
                                   (gradient_edge b) in
  let mask := Image_new L size size (Some [0]) in
  let mask := draw_rounded_rectangle mask (0, 0, size, size)
                (py_int (Qz size * 0.22)) [255] in
  let result := Image_new RGBA size size (Some [0; 0; 0; 0]) in
  let result := paste result bg (0, 0) (Some mask) in
  let s := (Qz size / 400)%Q in
  let result := draw_play_button result (Qz size / 2) (Qz size / 2) s white in
  draw_recording_dot result (Qz size / 2) (Qz size / 2) s (recording_dot b).

(** ** The world: file system and trace *)

Inductive file :=
  | ImageFile (img : image)
  | TextFile (s : string).

(** The composers of the script, by theme. *)
Inductive composer :=
  | c_create_app_icon | c_create_tvos_back | c_create_tvos_front
  | c_create_tvos_middle | c_create_shelf_image | c_create_launch_logo
  | c_create_vhs_icon | c_create_vhs_tvos_front | c_create_vhs_launch_logo
  | c_create_vhs_shelf_image
  | c_create_crt_icon | c_create_crt_tvos_back | c_create_crt_tvos_front
  | c_create_crt_launch_logo | c_create_crt_shelf_image.

Inductive event :=
  | Composed (c : composer) (width height : Z)
  | Opened (p : path).

Inductive exn :=
  | FileNotFoundError (p : path)
  | UnidentifiedImageError (p : path)
  | KeyError (k : string).

Record world := {
  w_dirs : gset path;
  w_files : gmap path file;
  w_trace : list event
}.

Inductive result (A : Type) :=
  | Ok (a : A) (w : world)
  | Raise (e : exn) (w : world).
Arguments Ok {A} a w.
Arguments Raise {A} e w.

(** A statement of the script: it runs in a world and either returns a
    value or raises, leaving a world in both cases. *)
Definition M (A : Type) : Type := world -> result A.

Global Instance script_ret : MRet M := fun A a w => Ok a w.

Global Instance script_bind : MBind M := fun A B k m w =>
  match m w with
  | Ok a w' => k a w'
  | Raise e w' => Raise e w'
  end.

Definition raise {A : Type} (e : exn) : M A := fun w => Raise e w.

Definition final_world {A : Type} (r : result A) : world :=
  match r with Ok _ w => w | Raise _ w => w end.

Definition log (e : event) : M unit := fun w =>
  Ok tt {| w_dirs := w_dirs w; w_files := w_files w;
           w_trace := w_trace w ++ [e] |}.

(** A call of composer [c] at size [width] x [height], returning [img]. *)
Definition call (c : composer) (width height : Z) (img : image) : M image :=
  log (Composed c width height);; mret img.

(** [for x in xs: body(x)]. *)
Fixpoint for_each {A : Type} (xs : list A) (body : A -> M unit) : M unit :=
  match xs with
  | [] => mret tt
  | x :: xs' => body x;; for_each xs' body
  end.

(** [os.path.dirname]. *)
Definition dirname (p : path) : path := removelast p.

Fixpoint prefixes_from (acc p : path) : list path :=
  match p with
  | [] => []
  | c :: p' => (acc ++ [c]) :: prefixes_from (acc ++ [c]) p'
  end.

(** [os.makedirs(d, exist_ok=True)]: [d] and every ancestor of it become
    directories.  No regular file is taken to sit where one is needed. *)
Definition makedirs (d : path) : M unit := fun w =>
  Ok tt {| w_dirs := w_dirs w ∪ list_to_set (prefixes_from [] d);
           w_files := w_files w; w_trace := w_trace w |}.

(** Paths are absolute: [[]] is the root, which always exists. *)
Definition is_dir (w : world) (d : path) : Prop := d = [] \/ d ∈ w_dirs w.

Global Instance is_dir_dec (w : world) (d : path) : Decision (is_dir w d).
Proof. unfold is_dir. apply _. Defined.

(** Creating or replacing the file at [p]: its directory has to exist. *)
Definition put_file (p : path) (f : file) : M unit := fun w =>
  if decide (is_dir w (dirname p)) then
    Ok tt {| w_dirs := w_dirs w; w_files := <[p := f]> (w_files w);
             w_trace := w_trace w |}
  else Raise (FileNotFoundError p) w.

(** [img.save(path)]: the parent directory has to exist. *)
Definition Image_save (img : image) (p : path) : M unit :=
  put_file p (ImageFile img).

(** [open(path, "w")]: the file is created or truncated. *)
Definition open_w (p : path) : M unit := put_file p (TextFile "").

(** [f.write(s)] on the file opened at [p]. *)
Definition f_write (p : path) (s : string) : M unit := fun w =>
  match w_files w !! p with
  | Some (TextFile old) =>
      Ok tt {| w_dirs := w_dirs w;
               w_files := <[p := TextFile (old ++ s)]> (w_files w);
               w_trace := w_trace w |}
  | _ => Raise (FileNotFoundError p) w
  end.

(** [Image.open(path)]. *)
Definition Image_open (p : path) : M image := fun w =>
  let w' := {| w_dirs := w_dirs w; w_files := w_files w;
               w_trace := w_trace w ++ [Opened p] |} in
  match w_files w !! p with
  | Some (ImageFile img) => Ok img w'
  | Some (TextFile _) => Raise (UnidentifiedImageError p) w'
  | None => Raise (FileNotFoundError p) w'
  end.

(** ** VHS cassette theme *)

(** [script] is [os.path.abspath(__file__)]. *)
Definition SCRIPT_DIR (script : path) : path := dirname script.
Definition VHS_SOURCE (script : path) : path :=
  SCRIPT_DIR script ++ ["vhs_source.png"%string].

Definition _load_vhs_source (script : path) : M image :=
  img ← Image_open (VHS_SOURCE script);
  mret (convert img RGBA).

Definition qmin (a b : Q) : Q := if Qle_bool a b then a else b.

(** The local function [rot] of [_place_vhs_on_canvas]. *)
Definition rot (px py cx cy a : R) : R * R :=
  let dx := (px - cx)%R in
  let dy := (py - cy)%R in
  ((cx + dx * cos a - dy * sin a)%R, (cy + dx * sin a + dy * cos a)%R).

Definition _place_vhs_on_canvas `{Pillow} (script : path)
    (canvas_w canvas_h : Z) (vhs_fraction : Q) (with_triangle : bool)
    : M image :=
  vhs ← _load_vhs_source script;
  let canvas := Image_new RGBA canvas_w canvas_h (Some [0; 0; 0; 0]) in
  let margin :=
    py_int (Qz (Z.min canvas_w canvas_h) * (1 - vhs_fraction) / 2) in
  let avail_w := canvas_w - 2 * margin in
  let avail_h := canvas_h - 2 * margin in
  let scale := qmin (Qz avail_w / Qz (im_width vhs))
                    (Qz avail_h / Qz (im_height vhs)) in
  let new_w := py_int (Qz (im_width vhs) * scale) in
  let new_h := py_int (Qz (im_height vhs) * scale) in
  let vhs_scaled := resize_lanczos vhs new_w new_h in
  let paste_x := (canvas_w - new_w) / 2 in
  let paste_y := (canvas_h - new_h) / 2 in
  let canvas := paste canvas vhs_scaled (paste_x, paste_y) (Some vhs_scaled) in
  if with_triangle then
    let tri_cx := paste_x + py_int (Qz new_w * 0.516) in
    let tri_cy := paste_y + py_int (Qz new_h * 0.422) in
    let tri_size := py_int (Qz new_h * 0.055) in
    let angle := (22 * PI / 180)%R in
    let pts := [ (Qz tri_cx - Qz tri_size * 0.5, Qz tri_cy - Qz tri_size * 0.7);
                 (Qz tri_cx - Qz tri_size * 0.5, Qz tri_cy + Qz tri_size * 0.7);
                 (Qz tri_cx + Qz tri_size * 0.8, Qz tri_cy) ]%Q in
    let rotated :=
      map (fun p => rot (Q2R (fst p)) (Q2R (snd p))
                        (IZR tri_cx) (IZR tri_cy) angle) pts in
    mret (draw_polygon_Z canvas
           (map (fun p => (py_int_R (fst p), py_int_R (snd p))) rotated)
           [220; 40; 30; 255])
  else mret canvas.

Definition create_vhs_icon `{Pillow} (script : path) (size : Z) (b : brand)
    : M image :=
  let bg := create_radial_gradient size size (gradient_center b)
                                   (gradient_edge b) in
  let mask := Image_new L size size (Some [0]) in
  let mask := draw_rounded_rectangle mask (0, 0, size, size)
                (py_int (Qz size * 0.22)) [255] in
  let result := Image_new RGBA size size (Some [0; 0; 0; 0]) in
  let result := paste result bg (0, 0) (Some mask) in
  vhs_layer ← _place_vhs_on_canvas script size size 0.85 true;
  let result := alpha_composite result vhs_layer in
  let final := Image_new RGBA size size (Some [0; 0; 0; 0]) in
  let final := paste final result (0, 0) (Some mask) in
  mret (convert final RGB).

Definition create_vhs_tvos_front `{Pillow} (script : path)
    (width height : Z) (b : brand) : M image :=
  _place_vhs_on_canvas script width height 0.80 true.

Definition create_vhs_launch_logo `{Pillow} (script : path) (size : Z)
    (b : brand) : M image :=
  _place_vhs_on_canvas script size size 0.80 true.

Definition create_vhs_shelf_image `{Pillow} (script : path)
    (width height : Z) (b : brand) : M image :=
  let bg_color := scale255 (launch_bg_rgb b) in
  let img := Image_new RGB width height (Some bg_color) in
  let '(gc0, gc1, gc2) := gradient_center b in
  let glow_size := py_int (Qz height * 1.2) in
  let glow := Image_new RGBA glow_size glow_size (Some [0; 0; 0; 0]) in
  let glow := draw_ellipse_Z glow (0, 0, glow_size, glow_size)
                [gc0; gc1; gc2; 30] in
  let glow := gaussian_blur (glow_size / 4) glow in
  let img_rgba := convert img RGBA in
  let glow_layer := Image_new RGBA width height (Some [0; 0; 0; 0]) in
  let glow_layer := paste glow_layer glow
                      ((width - glow_size) / 2, (height - glow_size) / 2)
                      None in
  let img_rgba := alpha_composite img_rgba glow_layer in
  vhs_layer ← _place_vhs_on_canvas script width height 0.50 true;
  let img_rgba := alpha_composite img_rgba vhs_layer in
  mret (convert img_rgba RGB).

(** ** CRT TV theme *)

Definition CRT_BG : rgb := (14, 31, 21).
Definition CRT_TV_BODY : rgb := (30, 48, 37).
Definition CRT_SCREEN : rgb := (10, 26, 16).
Definition CRT_PLAY : rgb := (100, 255, 150).
Definition CRT_REC : rgb := (229, 57, 53).
Definition CRT_ANTENNA : rgb := (58, 90, 58).
Definition CRT_LEG : rgb := (42, 74, 42).
Definition CRT_KNOB : rgb := (50, 80, 50).
Definition CRT_SCANLINE : rgb := (20, 50, 30).
Definition CRT_BEZEL : rgb := (24, 40, 30).

(** The radius [rec_r] of the REC dot in [_draw_crt_on]. *)
Definition crt_rec_r (s : Q) : Z :=
  let rec_r := Z.max (py_int (3 * s)) 1 in
  if py_int (200 * s) <=? 32 then Z.max (py_int (2 * s)) 1 else rec_r.

(** The radius [kr] of the two knobs in [_draw_crt_on]. *)
Definition crt_kr (s : Q) : Z :=
  let kr := Z.max (py_int (4 * s)) 2 in
  if py_int (200 * s) <=? 32 then Z.max (py_int (3 * s)) 1 else kr.

Definition _draw_crt_on `{Pillow} (draw : image) (width height : Z) (s : Q)
    (include_bg : bool) : image :=
  let ox := (width - py_int (200 * s)) / 2 in
  let oy := (height - py_int (200 * s)) / 2 in
  let draw := if include_bg
              then draw_rectangle draw (0, 0, width, height) (tuple3 CRT_BG)
              else draw in
  (* TV body *)
  let bx1 := ox + py_int (30 * s) in
  let by1 := oy + py_int (45 * s) in
  let bx2 := ox + py_int (170 * s) in
  let by2 := oy + py_int (155 * s) in
  let draw := draw_rounded_rectangle draw (bx1, by1, bx2, by2) (py_int (12 * s))
                (tuple3 CRT_TV_BODY) in
  (* Bezel *)
  let draw := draw_rounded_rectangle_outline draw
                (bx1 + py_int (2 * s), by1 + py_int (2 * s),
                 bx2 - py_int (2 * s), by2 - py_int (2 * s))
                (py_int (10 * s))
                (tuple3 CRT_BEZEL) (Z.max (py_int (1.5 * s)) 1) in
  (* Screen *)
  let sx1 := ox + py_int (40 * s) in
  let sy1 := oy + py_int (55 * s) in
  let sx2 := ox + py_int (145 * s) in
  let sy2 := oy + py_int (135 * s) in
  let draw := draw_rounded_rectangle draw (sx1, sy1, sx2, sy2) (py_int (8 * s))
                (tuple3 CRT_SCREEN) in
  (* Scan lines *)
  let draw := fold_left (fun d y_line =>
                draw_line d (sx1, y_line) (sx2, y_line) (tuple3 CRT_SCANLINE) 1)
                (py_range sy1 sy2 (Z.max (py_int (4 * s)) 2)) draw in
  (* Play triangle on screen *)
  let scx := (Qz (sx1 + sx2) / 2)%Q in
  let scy := (Qz (sy1 + sy2) / 2)%Q in
  let ts := (18 * s)%Q in
  let points := [ (scx - ts * 0.4, scy - ts * 0.6);
                  (scx - ts * 0.4, scy + ts * 0.6);
                  (scx + ts * 0.6, scy) ]%Q in
  let draw := draw_polygon draw points (tuple3 CRT_PLAY) in
  (* REC dot *)
  let rec_r := crt_rec_r s in
  let rec_cx := ox + py_int (155 * s) in
  let rec_cy := oy + py_int (60 * s) in
  let draw := draw_ellipse_Z draw
                (rec_cx - rec_r, rec_cy - rec_r, rec_cx + rec_r, rec_cy + rec_r)
                (tuple3 CRT_REC) in
  (* Knobs *)
  let k1x := ox + py_int (155 * s) in
  let k1y := oy + py_int (110 * s) in
  let k2x := ox + py_int (155 * s) in
  let k2y := oy + py_int (130 * s) in
  let kr := crt_kr s in
  let draw := draw_ellipse_Z draw (k1x - kr, k1y - kr, k1x + kr, k1y + kr)
                (tuple3 CRT_KNOB) in
  let draw := draw_ellipse_Z draw (k2x - kr, k2y - kr, k2x + kr, k2y + kr)
                (tuple3 CRT_KNOB) in
  (* Antennas *)
  let aw := Z.max (py_int (2.5 * s)) 1 in
  let ant_bl := (ox + py_int (70 * s), oy + py_int (45 * s)) in
  let ant_br := (ox + py_int (130 * s), oy + py_int (45 * s)) in
  let ant_tl := (ox + py_int (50 * s), oy + py_int (18 * s)) in
  let ant_tr := (ox + py_int (150 * s), oy + py_int (18 * s)) in
  let draw := draw_line draw ant_bl ant_tl (tuple3 CRT_ANTENNA) aw in
  let draw := draw_line draw ant_br ant_tr (tuple3 CRT_ANTENNA) aw in
  let tip_r := Z.max (py_int (2.5 * s)) 1 in
  let draw := fold_left (fun d t =>
                draw_ellipse_Z d
                  (fst t - tip_r, snd t - tip_r, fst t + tip_r, snd t + tip_r)
                  (tuple3 CRT_ANTENNA))
                [ant_tl; ant_tr] draw in
  (* Legs *)
  let lw := Z.max (py_int (3 * s)) 1 in
  let draw := draw_line draw (ox + py_int (55 * s), oy + py_int (155 * s))
                (ox + py_int (45 * s), oy + py_int (175 * s))
                (tuple3 CRT_LEG) lw in
  let draw := draw_line draw (ox + py_int (145 * s), oy + py_int (155 * s))
                (ox + py_int (155 * s), oy + py_int (175 * s))
                (tuple3 CRT_LEG) lw in
  let fw := Z.max (py_int (4 * s)) 2 in
  let draw := draw_line draw (ox + py_int (38 * s), oy + py_int (175 * s))
                (ox + py_int (52 * s), oy + py_int (175 * s))
                (tuple3 CRT_LEG) fw in
  draw_line draw (ox + py_int (148 * s), oy + py_int (175 * s))
            (ox + py_int (162 * s), oy + py_int (175 * s))
            (tuple3 CRT_LEG) fw.

Definition create_crt_icon `{Pillow} (size : Z) (b : brand) : image :=
  let img := Image_new RGB size size (Some (tuple3 CRT_BG)) in
  let s := (Qz size / 200)%Q in
  _draw_crt_on img size size s true.

Definition create_crt_tvos_back (width height : Z) (b : brand) : image :=
  Image_new RGB width height (Some (tuple3 CRT_BG)).

Definition create_crt_tvos_front `{Pillow} (width height : Z) (b : brand)
    : image :=
  let img := Image_new RGBA width height (Some [0; 0; 0; 0]) in
  let s := (Qz (Z.min width height) / 200)%Q in
  _draw_crt_on img width height s false.

Definition create_crt_launch_logo `{Pillow} (size : Z) (b : brand) : image :=
  let img := Image_new RGBA size size (Some [0; 0; 0; 0]) in
  let s := (Qz size / 200)%Q in
  _draw_crt_on img size size s false.

Definition create_crt_shelf_image `{Pillow} (width height : Z) (b : brand)
    : image :=
  let bg_color := scale255 (launch_bg_rgb b) in
  let img := Image_new RGB width height (Some bg_color) in
  let s := (Qz (Z.min width height) / 200 * 0.6)%Q in
  _draw_crt_on img width height s true.

(** ** Colorset JSON helpers *)

(** The values [json.dump] receives here; an object keeps the insertion
    order of its dictionary. *)
#[warnings="-register-all"]
Inductive json :=
  | JString (s : string)
  | JInt (n : Z)
  | JArray (items : list json)
  | JObject (members : list (string * json)).

Definition dquote : string := String "034"%char EmptyString.
Definition newline : string := String "010"%char EmptyString.

Definition string_of_Z (n : Z) : string :=
  NilZero.string_of_int (Z.to_int n).

(** String escaping of the encoder, on the two printable characters it
    escapes. *)
Fixpoint json_escape (s : string) : string :=
  match s with
  | EmptyString => EmptyString
  | String c s' =>
      (if Ascii.eqb c "034"%char then "\" +:+ dquote
       else if Ascii.eqb c "\"%char then "\\"
       else String c EmptyString) +:+ json_escape s'
  end.

Definition json_quote (s : string) : string :=
  dquote +:+ json_escape s +:+ dquote.

Fixpoint spaces (n : nat) : string :=
  match n with
  | O => EmptyString
  | Datatypes.S k => " " +:+ spaces k
  end.

Definition newline_indent (level : nat) : string :=
  newline +:+ spaces (2 * level).

(** [json.dumps(j, indent=2)] at nesting depth [level]. *)
Fixpoint json_encode (level : nat) (j : json) : string :=
  match j with
  | JString s => json_quote s
  | JInt n => string_of_Z n
  | JArray [] => "[]"
  | JArray items =>
      "[" +:+ newline_indent (Datatypes.S level) +:+
      String.concat ("," +:+ newline_indent (Datatypes.S level))
        (map (json_encode (Datatypes.S level)) items) +:+
      newline_indent level +:+ "]"
  | JObject [] => "{}"
  | JObject members =>
      "{" +:+ newline_indent (Datatypes.S level) +:+
      String.concat ("," +:+ newline_indent (Datatypes.S level))
        (map (fun kv => json_quote (fst kv) +:+ ": " +:+
                        json_encode (Datatypes.S level) (snd kv)) members) +:+
      newline_indent level +:+ "}"
  end.

Definition json_dumps (j : json) : string := json_encode 0 j.

(** [d[k]] on an object. *)
Definition json_get (j : json) (k : string) : option json :=
  match j with
  | JObject members => dict_get members k
  | _ => None
  end.

(** Rounding to the nearest integer, ties to even. *)
Definition round_half_even (q : Q) : Z :=
  let f := Qfloor q in
  match (q - inject_Z f ?= 1 # 2)%Q with
  | Lt => f
  | Gt => f + 1
  | Eq => if Z.even f then f else f + 1
  end.

Definition digit (d : Z) : string :=
  String (ascii_of_nat (48 + Z.to_nat d)) EmptyString.

(** A count of thousandths printed with three decimals. *)
Definition format_milli (n : Z) : string :=
  let a := Z.abs n in
  (if n <? 0 then "-" else "") +:+ string_of_Z (a / 1000) +:+ "." +:+
  digit (a / 100 mod 10) +:+ digit (a / 10 mod 10) +:+ digit (a mod 10).

(** [2 ** e] as a rational. *)
Definition pow2 (e : Z) : Q :=
  if 0 <=? e then inject_Z (2 ^ e) else 1 # Z.to_pos (2 ^ (- e)).

(** The exponent [e] with [2 ** e <= q < 2 ** (e + 1)], for [q > 0]. *)
Definition Qlog2 (q : Q) : Z :=
  let e := Z.log2 (Qnum q) - Z.log2 (Zpos (Qden q)) in
  if Qle_bool (pow2 e) q then e else e - 1.

(** The spacing of the binary64 numbers around [q]: 53 significant bits,
    and never finer than the subnormal spacing [2 ** -1074]. *)
Definition ulp (q : Q) : Q :=
  pow2 (Z.max (Qlog2 (Qabs q) - 52) (-1074)).

(** The Python float of a decimal literal of value [q]: the IEEE 754
    binary64 number nearest to [q], ties to the even significand, held as
    the rational it denotes.  Literals beyond the finite range (which
    read as [inf]) are not covered. *)
Definition binary64 (q : Q) : Q :=
  if Qeq_bool q 0 then 0%Q
  else (inject_Z (round_half_even (q / ulp q)) * ulp q)%Q.

(** [f"{x:.3f}"] for the float written [x] in the script, [x >= 0]: the
    float is the binary64 number nearest to [x], and the format rounds
    the exact value of that float, ties to even. *)
Definition format_3f (x : Q) : string :=
  format_milli (round_half_even (binary64 x * 1000)).

Definition color_entry (c : Q * Q * Q) : json :=
  let '(r, g, b) := c in
  JObject [
    ("color", JObject [
       ("color-space", JString "srgb");
       ("components", JObject [
          ("alpha", JString "1.000");
          ("blue", JString (format_3f b));
          ("green", JString (format_3f g));
          ("red", JString (format_3f r)) ]) ]);
    ("idiom", JString "universal") ].

Definition info_entry : json :=
  JObject [("author", JString "xcode"); ("version", JInt 1)].

(** The dictionary [data] of [write_accent_colorset]. *)
Definition accent_data (accent_rgb : option (Q * Q * Q)) : json :=
  match accent_rgb with
  | None =>
      JObject [ ("colors", JArray [JObject [("idiom", JString "universal")]]);
                ("info", info_entry) ]
  | Some c =>
      JObject [ ("colors", JArray [color_entry c]); ("info", info_entry) ]
  end.

Definition write_accent_colorset (assets : path)
    (accent_rgb : option (Q * Q * Q)) : M unit :=
  let p := assets ++ ["AccentColor.colorset"; "Contents.json"]%string in
  let data := accent_data accent_rgb in
  makedirs (dirname p);;
  open_w p;;
  f_write p (json_dumps data);;
  f_write p newline.

(** The dictionary [data] of [write_launch_bg_colorset]. *)
Definition launch_bg_data (c : Q * Q * Q) : json :=
  JObject [ ("colors", JArray [color_entry c]); ("info", info_entry) ].

Definition write_launch_bg_colorset (assets : path) (c : Q * Q * Q)
    : M unit :=
  let p := assets ++ ["LaunchBackground.colorset"; "Contents.json"]%string in
  let data := launch_bg_data c in
  makedirs (dirname p);;
  open_w p;;
  f_write p (json_dumps data);;
  f_write p newline.

(** ** Main *)

Definition save (img : image) (p : path) (force_rgb : bool) : M unit :=
  makedirs (dirname p);;
  let img := if force_rgb && negb (mode_eqb (im_mode img) RGB)
             then convert img RGB else img in
  Image_save img p.

(** The dictionary [icon_sizes] of [generate], in its insertion order. *)
Definition icon_sizes : list (string * Z) :=
  [ ("AppIcon-1024.png", 1024); ("AppIcon-512@2x.png", 1024);
    ("AppIcon-512.png", 512); ("AppIcon-256@2x.png", 512);
    ("AppIcon-256.png", 256); ("AppIcon-128@2x.png", 256);
    ("AppIcon-128.png", 128); ("AppIcon-32@2x.png", 64);
    ("AppIcon-32.png", 32); ("AppIcon-16@2x.png", 32);
    ("AppIcon-16.png", 16) ]%string.

(** [create_crt_icon(sz, brand) if is_crt else create_app_icon(sz, brand)]. *)
Definition render_icon `{Pillow} (is_crt : bool) (b : brand) (sz : Z)
    : M image :=
  if is_crt then call c_create_crt_icon sz sz (create_crt_icon sz b)
  else call c_create_app_icon sz sz (create_app_icon sz b).

(** The loop over [icon_sizes.items()] with its [cache] dictionary. *)
Fixpoint icon_loop (render : Z -> M image) (icon_dir : path)
    (entries : list (string * Z)) (cache : gmap Z image)
    : M (gmap Z image) :=
  match entries with
  | [] => mret cache
  | (filename, sz) :: rest =>
      cache ← match cache !! sz with
              | Some _ => mret cache
              | None => img ← render sz; mret (<[sz := img]> cache)
              end;
      match cache !! sz with
      | Some img => save img (icon_dir ++ [filename]) true
      | None => raise (KeyError (string_of_Z sz))
      end;;
      icon_loop render icon_dir rest cache
  end.

Definition launch_sizes (stem : string) : list (string * Z) :=
  [ (stem +:+ ".png", 120); (stem +:+ "@2x.png", 240);
    (stem +:+ "@3x.png", 360) ].

Definition layer (stack : path) (l : string) (tag : string) : path :=
  stack ++ [l; "Content.imageset"; tag]%string.

(** The three layers of one tvOS image stack entry. *)
Definition tvos_layers `{Pillow} (is_crt : bool) (b : brand) (stack : path)
    (w h : Z) (tag : string) : M unit :=
  back ← (if is_crt then call c_create_crt_tvos_back w h
                            (create_crt_tvos_back w h b)
          else call c_create_tvos_back w h (create_tvos_back w h b));
  save back (layer stack "Back.imagestacklayer" tag) true;;
  middle ← call c_create_tvos_middle w h (create_tvos_middle w h);
  save middle (layer stack "Middle.imagestacklayer" tag) false;;
  front ← (if is_crt then call c_create_crt_tvos_front w h
                             (create_crt_tvos_front w h b)
           else call c_create_tvos_front w h (create_tvos_front w h b));
  save front (layer stack "Front.imagestacklayer" tag) false.

(** [shelf_fn(w, h, brand)]. *)
Definition shelf_fn `{Pillow} (is_crt : bool) (w h : Z) (b : brand)
    : M image :=
  if is_crt then call c_create_crt_shelf_image w h
                   (create_crt_shelf_image w h b)
  else call c_create_shelf_image w h (create_shelf_image w h b).

(** The colour of the launch background images. *)
Definition launch_bg_fill (is_crt : bool) (b : brand) : list Z :=
  if is_crt then tuple3 CRT_BG else scale255 (launch_bg_rgb b).

Definition generate `{Pillow} (script : path) (brand_key : string)
    : M unit :=
  match dict_get BRANDS brand_key with
  | None => raise (KeyError brand_key)
  | Some b =>
      let root := dirname (dirname script) in
      let assets := root ++ assets_dir b in
      let is_crt := String.eqb brand_key "dispatcherpvr" in
      (* App Icons *)
      let icon_dir := assets ++ ["AppIcon.appiconset"]%string in
      icon_loop (render_icon is_crt b) icon_dir icon_sizes ∅;;
      (* Launch Logo *)
      let logo_dir := assets ++ ["LaunchLogo.imageset"]%string in
      for_each (launch_sizes "LaunchLogo") (fun e =>
        let '(suffix, sz) := e in
        logo ← (if is_crt then call c_create_crt_launch_logo sz sz
                                 (create_crt_launch_logo sz b)
                else call c_create_launch_logo sz sz
                       (create_launch_logo sz b));
        save logo (logo_dir ++ [suffix]) false);;
      (* Launch Background *)
      let bg_dir := assets ++ ["LaunchBG.imageset"]%string in
      for_each (launch_sizes "LaunchBG") (fun e =>
        let '(suffix, sz) := e in
        let bg_img := Image_new RGB sz sz (Some (launch_bg_fill is_crt b)) in
        save bg_img (bg_dir ++ [suffix]) true);;
      (* tvOS App Icon (400x240) *)
      let tv := assets ++ ["tv.brandassets"; "App Icon.imagestack"]%string in
      for_each [ (400, 240, "icon_400x240.png"%string);
                 (800, 480, "icon_800x480.png"%string) ] (fun e =>
        let '(w, h, tag) := e in tvos_layers is_crt b tv w h tag);;
      (* tvOS App Store Icon (1280x768) *)
      let tvs := assets ++ ["tv.brandassets";
                            "App Icon - App Store.imagestack"]%string in
      tvos_layers is_crt b tvs 1280 768 "icon_1280x768.png";;
      (* Top Shelf *)
      let shelf := assets ++ ["tv.brandassets";
                              "Top Shelf Image.imageset"]%string in
      img ← shelf_fn is_crt 1920 720 b;
      save img (shelf ++ ["shelf_1920x720.png"%string]) true;;
      img ← shelf_fn is_crt 3840 1440 b;
      save img (shelf ++ ["shelf_3840x1440.png"%string]) true;;
      let shelfw := assets ++ ["tv.brandassets";
                               "Top Shelf Image Wide.imageset"]%string in
      img ← shelf_fn is_crt 2320 720 b;
      save img (shelfw ++ ["shelf_wide_2320x720.png"%string]) true;;
      img ← shelf_fn is_crt 4640 1440 b;
      save img (shelfw ++ ["shelf_wide_4640x1440.png"%string]) true;;
      (* Color sets *)
      write_accent_colorset assets (accent_rgb b);;
      write_launch_bg_colorset assets (launch_bg_rgb b)
  end.

(** The [choices] of the positional argument [brand]. *)
Definition brand_choices : list string :=
  ["nexuspvr"; "dispatcherpvr"; "all"]%string.

Inductive usage_error :=
  | InvalidChoice (argument value : string) (choices : list string).

(** [parser.parse_args()] on a command line made of one positional
    argument. *)
Definition parse_args (arg : string) : usage_error + string :=
  if existsb (String.eqb arg) brand_choices then inr arg
  else inl (InvalidChoice "brand" arg brand_choices).

(** How the process ends: its exit status, the usage error printed on the
    standard error stream if any, the exception that ended it if any, and
    the world it leaves. *)
Record outcome := {
  exit_code : Z;
  usage : option usage_error;
  uncaught : option exn;
  out_world : world
}.

Definition main `{Pillow} (script : path) (arg : string) (w : world)
    : outcome :=
  match parse_args arg with
  | inl err =>
      {| exit_code := 2; usage := Some err; uncaught := None;
         out_world := w |}
  | inr brand_arg =>
      let run := if String.eqb brand_arg "all"
                 then for_each (map fst BRANDS) (generate script)
                 else generate script brand_arg in
      match run w with
      | Ok _ w' =>
          {| exit_code := 0; usage := None; uncaught := None;
             out_world := w' |}
      | Raise e w' =>
          {| exit_code := 1; usage := None; uncaught := Some e;
             out_world := w' |}
      end
  end.

(** ** Predicates of the specification *)

Definition within_rounding (p : pixel) (c : rgb) : Prop :=
  let '(c0, c1, c2) := c in
  match p with
  | [r; g; b] =>
      Z.abs (r - c0) <= 1 /\ Z.abs (g - c1) <= 1 /\ Z.abs (b - c2) <= 1
  | _ => False
  end.

Definition channels_between (p : pixel) (c e : rgb) : Prop :=
  let '(c0, c1, c2) := c in
  let '(e0, e1, e2) := e in
  match p with
  | [r; g; b] =>
      Z.min c0 e0 <= r <= Z.max c0 e0 /\
      Z.min c1 e1 <= g <= Z.max c1 e1 /\
      Z.min c2 e2 <= b <= Z.max c2 e2
  | _ => False
  end.


(** ** What a run leaves behind *)

(** The effect of a statement that cannot fail: the directories it makes,
    the files it writes, in order, and the events it records. *)
Record effect := {
  e_dirs : list path;
  e_files : list (path * file);
  e_trace : list event
}.

Definition write_all (fs : list (path * file)) (m : gmap path file)
    : gmap path file :=
  fold_left (fun acc pf => <[pf.1 := pf.2]> acc) fs m.

Definition apply_effect (e : effect) (w : world) : world :=
  {| w_dirs := w_dirs w ∪ list_to_set (e_dirs e);
     w_files := write_all (e_files e) (w_files w);
     w_trace := w_trace w ++ e_trace e |}.

Definition effect_app (e1 e2 : effect) : effect :=
  {| e_dirs := e_dirs e1 ++ e_dirs e2;
     e_files := e_files e1 ++ e_files e2;
     e_trace := e_trace e1 ++ e_trace e2 |}.

Definition no_effect : effect :=
  {| e_dirs := []; e_files := []; e_trace := [] |}.

(** [m] returns [a] in every world and changes it by [e]. *)
Definition runs {A : Type} (m : M A) (a : A) (e : effect) : Prop :=
  forall w, m w = Ok a (apply_effect e w).

(** The file last written at [p] by a list of writes. *)
Fixpoint last_write (fs : list (path * file)) (p : path) : option file :=
  match fs with
  | [] => None
  | (q, f) :: fs' =>
      match last_write fs' p with
      | Some g => Some g
      | None => if decide (q = p) then Some f else None
      end
  end.

(** The image [save] writes. *)
Definition saved (force_rgb : bool) (img : image) : image :=
  if force_rgb && negb (mode_eqb (im_mode img) RGB)
  then convert img RGB else img.

(** The effect of [save]. *)
Definition save_effect (img : image) (p : path) (force_rgb : bool) : effect :=
  {| e_dirs := prefixes_from [] (dirname p);
     e_files := [(p, ImageFile (saved force_rgb img))];
     e_trace := [] |}.

(** The effect of writing the text [s] to a fresh or truncated file. *)
Definition text_effect (p : path) (s : string) : effect :=
  {| e_dirs := prefixes_from [] (dirname p);
     e_files := [(p, TextFile s)];
     e_trace := [] |}.

(** The sizes of a manifest that are not yet in the cache, each once, in
    the order they are met. *)
Fixpoint first_seen (seen : gset Z) (sizes : list Z) : list Z :=
  match sizes with
  | [] => []
  | sz :: rest =>
      if decide (sz ∈ seen) then first_seen seen rest
      else sz :: first_seen ({[sz]} ∪ seen) rest
  end.

(** Icon generation without the cache: every manifest entry renders its
    own image. *)
Definition icon_loop_fresh (render : Z -> M image) (icon_dir : path)
    (entries : list (string * Z)) : M unit :=
  for_each entries (fun e =>
    img ← render e.2; save img (icon_dir ++ [e.1]) true).

(** The effect of the icon loop over [entries] when the sizes [seen] are
    cached, [f] being the image the composer [c] returns. *)
Definition icon_loop_effect (c : composer) (f : Z -> image) (icon_dir : path)
    (seen : gset Z) (entries : list (string * Z)) : effect :=
  {| e_dirs := concat (map (fun e : string * Z =>
                 prefixes_from [] (dirname (icon_dir ++ [e.1]))) entries);
     e_files := map (fun e : string * Z =>
                  (icon_dir ++ [e.1], ImageFile (saved true (f e.2))))
                  entries;
     e_trace := map (fun sz => Composed c sz sz)
                    (first_seen seen (entries.*2)) |}.

(** Every cached image is the rendering of its size. *)
Definition coherent (f : Z -> image) (cache : gmap Z image) : Prop :=
  forall sz img, cache !! sz = Some img -> img = f sz.

(** Two images of one mode and one size. *)
Definition same_frame (a b : image) : Prop :=
  im_mode a = im_mode b /\ im_width a = im_width b /\
  im_height a = im_height b.

(** An RGB colour: three bands in 0..255. *)
Definition valid_rgb (c : rgb) : Prop :=
  let '(r, g, b) := c in
  0 <= r <= 255 /\ 0 <= g <= 255 /\ 0 <= b <= 255.

(** The composers of the gradient play-button theme and of the CRT theme;
    the empty middle layer belongs to both. *)
Definition gradient_composer (c : composer) : bool :=
  match c with
  | c_create_app_icon | c_create_tvos_back | c_create_tvos_front
  | c_create_tvos_middle | c_create_shelf_image | c_create_launch_logo => true
  | _ => false
  end.

Definition crt_composer (c : composer) : bool :=
  match c with
  | c_create_crt_icon | c_create_crt_tvos_back | c_create_crt_tvos_front
  | c_create_tvos_middle | c_create_crt_shelf_image
  | c_create_crt_launch_logo => true
  | _ => false
  end.

Definition vhs_composer (c : composer) : bool :=
  match c with
  | c_create_vhs_icon | c_create_vhs_tvos_front | c_create_vhs_launch_logo
  | c_create_vhs_shelf_image => true
  | _ => false
  end.

(** An event a run of theme [is_crt] may record: a call of a composer of
    that theme, and no file open. *)
Definition theme_event (is_crt : bool) (e : event) : bool :=
  match e with
  | Composed c _ _ => if is_crt then crt_composer c else gradient_composer c
  | Opened _ => false
  end.

(** ** The asset manifest *)

(** The image of each asset category, by theme. *)
Definition icon_image `{Pillow} (is_crt : bool) (b : brand) (sz : Z) : image :=
  if is_crt then create_crt_icon sz b else create_app_icon sz b.

Definition logo_image `{Pillow} (is_crt : bool) (b : brand) (sz : Z) : image :=
  if is_crt then create_crt_launch_logo sz b else create_launch_logo sz b.

Definition back_image (is_crt : bool) (b : brand) (w h : Z) : image :=
  if is_crt then create_crt_tvos_back w h b else create_tvos_back w h b.

Definition front_image `{Pillow} (is_crt : bool) (b : brand) (w h : Z)
    : image :=
  if is_crt then create_crt_tvos_front w h b else create_tvos_front w h b.

Definition shelf_image `{Pillow} (is_crt : bool) (b : brand) (w h : Z)
    : image :=
  if is_crt then create_crt_shelf_image w h b else create_shelf_image w h b.

Definition tvos_manifest `{Pillow} (is_crt : bool) (b : brand) (stack : path)
    (w h : Z) (tag : string) : list (path * file) :=
  [ (layer stack "Back.imagestacklayer" tag,
     ImageFile (saved true (back_image is_crt b w h)));
    (layer stack "Middle.imagestacklayer" tag,
     ImageFile (saved false (create_tvos_middle w h)));
    (layer stack "Front.imagestacklayer" tag,
     ImageFile (saved false (front_image is_crt b w h))) ].

(** Every file a run for brand [b] writes, in the order of writing. *)
Definition manifest `{Pillow} (script : path) (is_crt : bool) (b : brand)
    : list (path * file) :=
  let root := dirname (dirname script) in
  let assets := root ++ assets_dir b in
  let icon_dir := assets ++ ["AppIcon.appiconset"]%string in
  let logo_dir := assets ++ ["LaunchLogo.imageset"]%string in
  let bg_dir := assets ++ ["LaunchBG.imageset"]%string in
  let tv := assets ++ ["tv.brandassets"; "App Icon.imagestack"]%string in
  let tvs := assets ++ ["tv.brandassets";
                        "App Icon - App Store.imagestack"]%string in
  let shelf := assets ++ ["tv.brandassets";
                          "Top Shelf Image.imageset"]%string in
  let shelfw := assets ++ ["tv.brandassets";
                           "Top Shelf Image Wide.imageset"]%string in
  map (fun e : string * Z =>
         (icon_dir ++ [e.1], ImageFile (saved true (icon_image is_crt b e.2))))
      icon_sizes ++
  map (fun e : string * Z =>
         (logo_dir ++ [e.1], ImageFile (saved false (logo_image is_crt b e.2))))
      (launch_sizes "LaunchLogo") ++
  map (fun e : string * Z =>
         (bg_dir ++ [e.1],
          ImageFile (saved true (Image_new RGB e.2 e.2
                                     (Some (launch_bg_fill is_crt b))))))
      (launch_sizes "LaunchBG") ++
  tvos_manifest is_crt b tv 400 240 "icon_400x240.png" ++
  tvos_manifest is_crt b tv 800 480 "icon_800x480.png" ++
  tvos_manifest is_crt b tvs 1280 768 "icon_1280x768.png" ++
  [ (shelf ++ ["shelf_1920x720.png"%string],
     ImageFile (saved true (shelf_image is_crt b 1920 720)));
    (shelf ++ ["shelf_3840x1440.png"%string],
     ImageFile (saved true (shelf_image is_crt b 3840 1440)));
    (shelfw ++ ["shelf_wide_2320x720.png"%string],
     ImageFile (saved true (shelf_image is_crt b 2320 720)));
    (shelfw ++ ["shelf_wide_4640x1440.png"%string],
     ImageFile (saved true (shelf_image is_crt b 4640 1440)));
    (assets ++ ["AccentColor.colorset"; "Contents.json"]%string,
     TextFile (json_dumps (accent_data (accent_rgb b)) +:+ newline));
    (assets ++ ["LaunchBackground.colorset"; "Contents.json"]%string,
     TextFile (json_dumps (launch_bg_data (launch_bg_rgb b)) +:+ newline)) ].

Definition tvos_calls (is_crt : bool) (w h : Z) : list event :=
  [ Composed (if is_crt then c_create_crt_tvos_back else c_create_tvos_back)
             w h;
    Composed c_create_tvos_middle w h;
    Composed (if is_crt then c_create_crt_tvos_front else c_create_tvos_front)
             w h ].

(** Every composer call of a run, in order. *)
Definition composer_calls (is_crt : bool) : list event :=
  map (fun sz => Composed (if is_crt then c_create_crt_icon
                           else c_create_app_icon) sz sz)
      [1024; 512; 256; 128; 64; 32; 16] ++
  map (fun sz => Composed (if is_crt then c_create_crt_launch_logo
                           else c_create_launch_logo) sz sz)
      [120; 240; 360] ++
  tvos_calls is_crt 400 240 ++ tvos_calls is_crt 800 480 ++
  tvos_calls is_crt 1280 768 ++
  map (fun wh : Z * Z =>
         Composed (if is_crt then c_create_crt_shelf_image
                   else c_create_shelf_image) wh.1 wh.2)
      [(1920, 720); (3840, 1440); (2320, 720); (4640, 1440)].

(** The brand keys and the theme each selects. *)
Definition is_crt_key (brand_key : string) : bool :=
  String.eqb brand_key "dispatcherpvr".

(** The world [w] with the VHS source image present as [o], or absent. *)
Definition with_vhs_source (script : path) (o : option file) (w : world)
    : world :=
  {| w_dirs := w_dirs w;
     w_files := match o with
                | Some f => <[VHS_SOURCE script := f]> (w_files w)
                | None => delete (VHS_SOURCE script) (w_files w)
                end;
     w_trace := w_trace w |}.

(** An event that is neither a call of a VHS composer nor a file open. *)
Definition vhs_free (e : event) : Prop :=
  match e with
  | Composed c _ _ => vhs_composer c = false
  | Opened _ => False
  end.

(** ** Reading a colorset back *)

Definition digit_value (c : ascii) : option Z :=
  let n := Z.of_nat (nat_of_ascii c) in
  if (48 <=? n) && (n <=? 57) then Some (n - 48) else None.

Fixpoint parse_digits (acc : Z) (s : string) : option Z :=
  match s with
  | EmptyString => Some acc
  | String c s' =>
      match digit_value c with
      | Some d => parse_digits (10 * acc + d) s'
      | None => None
      end
  end.

(** The text before the first ["."] and the text after it. *)
Fixpoint split_point (s : string) : string * string :=
  match s with
  | EmptyString => (EmptyString, EmptyString)
  | String c s' =>
      if Ascii.eqb c "."%char then (EmptyString, s')
      else let '(a, b) := split_point s' in (String c a, b)
  end.

(** [float(s)] on an unsigned decimal numeral [I.F], read exactly. *)
Definition parse_decimal (s : string) : option Q :=
  let '(i, f) := split_point s in
  match i, parse_digits 0 i, parse_digits 0 f with
  | String _ _, Some a, Some b =>
      let scale := 10 ^ Z.of_nat (String.length f) in
      Some (Qmake (a * scale + b) (Z.to_pos scale))
  | _, _, _ => None
  end.

(** [a[i]] on an array. *)
Definition json_index (j : json) (i : nat) : option json :=
  match j with
  | JArray items => nth_error items i
  | _ => None
  end.

(** [data["colors"][0]]. *)
Definition first_color (data : json) : option json :=
  match json_get data "colors" with
  | Some colors => json_index colors 0
  | None => None
  end.

(** [data["colors"][0]["color"]["components"][k]]. *)
Definition component (data : json) (k : string) : option json :=
  match first_color data with
  | Some entry =>
      match json_get entry "color" with
      | Some color =>
          match json_get color "components" with
          | Some comps => json_get comps k
          | None => None
          end
      | None => None
      end
  | None => None
  end.

(** A [Pillow] whose blur and strokes leave the image as it is and whose
    resampling keeps the raster; it serves to run statements on concrete
    inputs. *)
Definition plain_pillow : Pillow := {|
  gaussian_blur := fun _ img => img;
  resize_lanczos := fun img w h =>
    {| im_mode := im_mode img; im_width := w; im_height := h;
       im_px := im_px img |};
  draw_line := fun img _ _ _ _ => img;
  draw_rounded_rectangle_outline := fun img _ _ _ _ => img
|}.

Definition empty_world : world :=
  {| w_dirs := ∅; w_files := ∅; w_trace := [] |}.

(** Reading back the three-decimal print of [n] thousandths gives [n]
    thousandths. *)
Definition parse_format_ok (n : Z) : bool :=
  match parse_decimal (format_milli n) with
  | Some q => (Qnum q =? n) && Pos.eqb (Qden q) 1000
  | None => false
  end.

(** What the claim on the accent components says of one component
    written [x] in the script: its print reads back as a count [n] of
    thousandths that is the float of [x] rounded to three decimals, to the
    even count when the float lies halfway between two, and that is [x]
    itself when [x] has three decimals. *)
Definition component_round_trips (x : Q) : Prop :=
  exists n : Z,
    0 <= n <= 1000 /\
    parse_decimal (format_3f x) = Some (Qmake n 1000) /\
    (Qabs (binary64 x - Qmake n 1000) <= 1 # 2000)%Q /\
    ((Qabs (binary64 x - Qmake n 1000) == 1 # 2000)%Q -> Z.even n = true) /\
    (forall k : Z, (x == Qmake k 1000)%Q -> n = k).

(** The documents the colorset writers are expected to leave on disk,
    line by line; in the lines ['] stands for the double quote, and every
    line ends with a line feed. *)
Fixpoint js (s : string) : string :=
  match s with
  | EmptyString => EmptyString
  | String c s' =>
      String (if Ascii.eqb c "'"%char then "034"%char else c) (js s')
  end.

Fixpoint text_of_lines (lines : list string) : string :=
  match lines with
  | [] => EmptyString
  | l :: rest => l +:+ String "010"%char (text_of_lines rest)
  end.

Definition expected_default_colorset : string :=
  text_of_lines (map js [
    "{";
    "  'colors': [";
    "    {";
    "      'idiom': 'universal'";
    "    }";
    "  ],";
    "  'info': {";
    "    'author': 'xcode',";
    "    'version': 1";
    "  }";
    "}" ]).

Definition expected_colorset (red green blue : string) : string :=
  text_of_lines [
    js "{";
    js "  'colors': [";
    js "    {";
    js "      'color': {";
    js "        'color-space': 'srgb',";
    js "        'components': {";
    js "          'alpha': '1.000',";
    js "          'blue': '" +:+ blue +:+ js "',";
    js "          'green': '" +:+ green +:+ js "',";
    js "          'red': '" +:+ red +:+ js "'";
    js "        }";
    js "      },";
    js "      'idiom': 'universal'";
    js "    }";
    js "  ],";
    js "  'info': {";
    js "    'author': 'xcode',";
    js "    'version': 1";
    js "  }";
    js "}" ].

(** ** Statements of the further properties *)

(** Where the second pixel of a gradient is, channel by channel, compared
    with the first: no nearer to the centre colour, no farther than the
    edge colour. *)
Definition toward_edge (p1 p2 : pixel) (c e : rgb) : Prop :=
  let '(c0, c1, c2) := c in
  let '(e0, e1, e2) := e in
  match p1, p2 with
  | [r1; g1; b1], [r2; g2; b2] =>
      (c0 <= e0 -> r1 <= r2 <= e0) /\ (e0 <= c0 -> e0 <= r2 <= r1) /\
      (c1 <= e1 -> g1 <= g2 <= e1) /\ (e1 <= c1 -> e1 <= g2 <= g1) /\
      (c2 <= e2 -> b1 <= b2 <= e2) /\ (e2 <= c2 -> e2 <= b2 <= b1)
  | _, _ => False
  end.

(** Both worlds hold the same files and the same directories. *)
Definition same_fs (w1 w2 : world) : Prop :=
  w_files w1 = w_files w2 /\ w_dirs w1 = w_dirs w2.

(** The exception [Image.open] raises on what the world holds at [p]. *)
Definition open_failure (p : path) (o : option file) : option exn :=
  match o with
  | Some (ImageFile _) => None
  | Some (TextFile _) => Some (UnidentifiedImageError p)
  | None => Some (FileNotFoundError p)
  end.

(** The result of a composer that stopped at [Image.open]: it raised [e],
    left files and directories as they were in [w], and recorded the
    attempt to open the VHS source image. *)
Definition stopped_at_open (script : path) (e : exn) (w : world)
    (r : result image) : Prop :=
  exists w' : world,
    r = Raise e w' /\ same_fs w' w /\
    w_trace w' = w_trace w ++ [Opened (VHS_SOURCE script)].

(** ** Loops *)

Lemma for_range_ind {S : Type} (P : Z -> S -> Prop) (n : Z)
    (body : Z -> S -> S) (s : S) :
  0 <= n -> P 0 s ->
  (forall i acc, 0 <= i < n -> P i acc -> P (i + 1) (body i acc)) ->
  P n (for_range n body s).
Proof.
  intros Hn H0 Hstep. unfold for_range.
  assert (Hgen : forall k : nat, (k <= Z.to_nat n)%nat ->
    P (Z.of_nat k)
      (fold_left (fun acc i => body (Z.of_nat i) acc) (seq 0 k) s)).
  { induction k as [|k IH]; intros Hk.
    - exact H0.
    - rewrite seq_S, fold_left_app. cbn [fold_left Nat.add].
      replace (Z.of_nat (Datatypes.S k)) with (Z.of_nat k + 1) by lia.
      apply Hstep; [lia | apply IH; lia]. }
  specialize (Hgen (Z.to_nat n) (Nat.le_refl _)).
  rewrite Z2Nat.id in Hgen by lia. exact Hgen.
Qed.

(** ** Truncation and the easing power on the reals *)

Lemma Int_part_IZR (z : Z) : Int_part (IZR z) = z.
Proof.
  symmetry. apply Int_part_spec. rewrite <- minus_IZR. split; [|lra].
  replace (z - 1)%Z with (z + -1)%Z by lia. rewrite plus_IZR. lra.
Qed.

Lemma py_int_R_IZR (z : Z) : py_int_R (IZR z) = z.
Proof.
  unfold py_int_R. destruct (Rle_dec 0 (IZR z)).
  - apply Int_part_IZR.
  - rewrite <- opp_IZR, Int_part_IZR. lia.
Qed.

Lemma Int_part_bounds (r : R) :
  (IZR (Int_part r) <= r < IZR (Int_part r) + 1)%R.
Proof.
  destruct (base_Int_part r) as [H1 H2]. split; lra.
Qed.

Lemma py_int_R_between (lo hi : Z) (r : R) :
  (IZR lo <= r <= IZR hi)%R -> lo <= py_int_R r <= hi.
Proof.
  intros [Hlo Hhi]. unfold py_int_R.
  destruct (Rle_dec 0 r) as [Hr|Hr].
  - destruct (Int_part_bounds r) as [H1 H2]. split.
    + apply Z.lt_succ_r. apply lt_IZR. rewrite succ_IZR. lra.
    + apply le_IZR. lra.
  - destruct (Int_part_bounds (- r)) as [H1 H2]. split.
    + apply le_IZR. rewrite opp_IZR. lra.
    + cut (- hi < Int_part (- r) + 1); [lia|].
      apply lt_IZR. rewrite plus_IZR, opp_IZR. lra.
Qed.

Lemma float_pow_0 (y : R) : float_pow 0 y = 0%R.
Proof. unfold float_pow. destruct (Rle_dec 0 0); [reflexivity | lra]. Qed.


Lemma float_pow_unit (x y : R) :
  (0 <= x <= 1)%R -> (0 <= y)%R -> (0 <= float_pow x y <= 1)%R.
Proof.
  intros [H0 H1] Hy. unfold float_pow. destruct (Rle_dec x 0); [lra|].
  unfold Rpower. split; [left; apply exp_pos|].
  rewrite <- exp_0. destruct (Rle_lt_or_eq_dec _ _ Hy) as [Hy'|Hy'].
  - destruct (Rle_lt_or_eq_dec _ _ H1) as [Hx|Hx].
    + left. apply exp_increasing.
      assert (ln x < 0)%R by (rewrite <- ln_1; apply ln_increasing; lra).
      nra.
    + subst x. rewrite ln_1, Rmult_0_r. lra.
  - subst y. rewrite Rmult_0_l. lra.
Qed.


(** ** The raster written by the gradient loops *)

Section Fill.
Variable f : Z -> Z -> pixel.

Lemma fill_row (w y : Z) (img : image) :
  w = im_width img -> 0 <= w -> 0 <= y < im_height img ->
  let img' := for_range w (fun x acc => putpixel acc x y (f x y)) img in
  same_frame img' img /\
  forall x' y', im_px img' x' y' =
    if (y' =? y) && (0 <=? x') && (x' <? w) then f x' y'
    else im_px img x' y'.
Proof.
  intros Hw Hw0 Hy img'. subst img'.
  apply (for_range_ind (fun i acc =>
    same_frame acc img /\
    forall x' y', im_px acc x' y' =
      if (y' =? y) && (0 <=? x') && (x' <? i) then f x' y'
      else im_px img x' y')); [lia | |].
  - split; [repeat split|]. intros x' y'.
    destruct (y' =? y), (0 <=? x') eqn:E; cbn; try reflexivity.
    destruct (x' <? 0) eqn:E'; [lia | reflexivity].
  - intros i acc Hi [(Hm & Hwd & Hh) Hpx].
    unfold putpixel, in_bounds. rewrite Hwd, Hh, <- Hw.
    replace ((0 <=? i) && (i <? w) && (0 <=? y) && (y <? im_height img))
      with true by (symmetry; repeat (apply andb_true_intro; split); lia).
    split; [repeat split; assumption|]. cbn [im_px]. intros x' y'.
    rewrite Hpx.
    destruct (x' =? i) eqn:Ex, (y' =? y) eqn:Ey; cbn [andb].
    + apply Z.eqb_eq in Ex, Ey. subst.
      replace (0 <=? i) with true by lia.
      replace (i <? i + 1) with true by lia. reflexivity.
    + reflexivity.
    + apply Z.eqb_neq in Ex. destruct (0 <=? x'); cbn [andb]; [|reflexivity].
      replace (x' <? i + 1) with (x' <? i) by lia. reflexivity.
    + reflexivity.
Qed.

Lemma fill_rows (w h : Z) (img : image) :
  w = im_width img -> h = im_height img -> 0 <= w -> 0 <= h ->
  let img' := for_range h (fun y acc =>
    for_range w (fun x acc' => putpixel acc' x y (f x y)) acc) img in
  same_frame img' img /\
  forall x' y', 0 <= x' < w -> 0 <= y' < h -> im_px img' x' y' = f x' y'.
Proof.
  intros Hw Hh Hw0 Hh0 img'. subst img'.
  assert (Hinv : let img' := for_range h (fun y acc =>
      for_range w (fun x acc' => putpixel acc' x y (f x y)) acc) img in
    same_frame img' img /\
    forall x' y', im_px img' x' y' =
      if (0 <=? y') && (y' <? h) && (0 <=? x') && (x' <? w) then f x' y'
      else im_px img x' y').
  { apply (for_range_ind (fun j acc =>
      same_frame acc img /\
      forall x' y', im_px acc x' y' =
        if (0 <=? y') && (y' <? j) && (0 <=? x') && (x' <? w) then f x' y'
        else im_px img x' y')); [lia | |].
    - split; [repeat split|]. intros x' y'.
      destruct (0 <=? y') eqn:E; cbn [andb]; [|reflexivity].
      replace (y' <? 0) with false by lia. reflexivity.
    - intros j acc Hj [(Hm & Hwd & Hht) Hpx].
      destruct (fill_row w j acc) as [(Hm' & Hwd' & Hht') Hpx'];
        [congruence | lia | rewrite Hht; lia |].
      split; [repeat split; congruence|]. intros x' y'.
      rewrite Hpx', Hpx.
      destruct (y' =? j) eqn:Ey; cbn [andb].
      + apply Z.eqb_eq in Ey. subst y'.
        replace (0 <=? j) with true by lia.
        replace (j <? j + 1) with true by lia.
        replace (j <? j) with false by lia. cbn [andb].
        destruct ((0 <=? x') && (x' <? w)); reflexivity.
      + apply Z.eqb_neq in Ey.
        replace (y' <? j + 1) with (y' <? j) by lia. reflexivity. }
  destruct Hinv as [Hf Hpx]. split; [exact Hf|].
  intros x' y' Hx Hy. rewrite Hpx.
  replace ((0 <=? y') && (y' <? h) && (0 <=? x') && (x' <? w)) with true
    by (symmetry; repeat (apply andb_true_intro; split); lia).
  reflexivity.
Qed.
End Fill.

Lemma create_radial_gradient_frame (w h : Z) (cc ec : rgb) :
  0 <= w -> 0 <= h ->
  let img := create_radial_gradient w h cc ec in
  im_mode img = RGB /\ im_width img = w /\ im_height img = h.
Proof.
  intros Hw Hh. unfold create_radial_gradient.
  destruct (fill_rows (gradient_pixel w h cc ec) w h (Image_new RGB w h None))
    as [(Hm & Hwd & Hht) _]; try reflexivity; try assumption.
  cbn in *. auto.
Qed.

Lemma getpixel_inside (img : image) (x y : Z) :
  0 <= x < im_width img -> 0 <= y < im_height img ->
  getpixel img x y = Some (im_px img x y).
Proof.
  intros Hx Hy. unfold getpixel, in_bounds.
  destruct (Z.ltb_spec x 0) as [?|_]; [lia|].
  destruct (Z.ltb_spec y 0) as [?|_]; [lia|].
  replace ((0 <=? x) && (x <? im_width img) && (0 <=? y) &&
           (y <? im_height img)) with true
    by (symmetry; repeat (apply andb_true_intro; split); lia).
  reflexivity.
Qed.

Lemma create_radial_gradient_getpixel (w h : Z) (cc ec : rgb) (x y : Z) :
  0 <= x < w -> 0 <= y < h ->
  getpixel (create_radial_gradient w h cc ec) x y =
    Some (gradient_pixel w h cc ec x y).
Proof.
  intros Hx Hy.
  destruct (create_radial_gradient_frame w h cc ec) as (Hm & Hwd & Hht);
    [lia | lia |].
  rewrite getpixel_inside by (rewrite ?Hwd, ?Hht; assumption).
  f_equal. unfold create_radial_gradient.
  destruct (fill_rows (gradient_pixel w h cc ec) w h (Image_new RGB w h None))
    as [_ Hpx]; try reflexivity; try lia.
  apply Hpx; assumption.
Qed.

(** ** The easing ratio *)

Lemma gradient_max_dist_pos (w h : Z) :
  0 < w -> (0 < sqrt ((IZR w / 2) ^ 2 + (IZR h / 2) ^ 2))%R.
Proof.
  intros Hw. apply sqrt_lt_R0. apply IZR_lt in Hw.
  assert (0 < (IZR w / 2) ^ 2)%R by (apply pow_lt; lra).
  assert (0 <= (IZR h / 2) ^ 2)%R by apply pow2_ge_0. lra.
Qed.

Lemma gradient_ratio_unit (w h x y : Z) :
  0 < w -> (0 <= gradient_ratio w h x y <= 1)%R.
Proof.
  intros Hw. unfold gradient_ratio. apply float_pow_unit; [|lra].
  pose proof (gradient_max_dist_pos w h Hw) as Hm.
  split.
  - apply Rmin_glb; [|lra]. apply Rmult_le_pos; [apply sqrt_pos|].
    left. apply Rinv_0_lt_compat. exact Hm.
  - apply Rmin_r.
Qed.

Lemma gradient_ratio_center (w h : Z) :
  0 < w -> Z.even w = true -> Z.even h = true ->
  gradient_ratio w h (w / 2) (h / 2) = 0%R.
Proof.
  intros Hw Ew Eh. unfold gradient_ratio.
  assert (Hx : (IZR (w / 2) - IZR w / 2 = 0)%R).
  { apply Z.even_spec in Ew. destruct Ew as [k ->].
    rewrite Z.mul_comm, Z.div_mul by lia. rewrite mult_IZR. lra. }
  assert (Hy : (IZR (h / 2) - IZR h / 2 = 0)%R).
  { apply Z.even_spec in Eh. destruct Eh as [k ->].
    rewrite Z.mul_comm, Z.div_mul by lia. rewrite mult_IZR. lra. }
  rewrite Hx, Hy.
  replace (0 ^ 2 + 0 ^ 2)%R with 0%R by lra. rewrite sqrt_0.
  unfold Rdiv. rewrite Rmult_0_l.
  rewrite Rmin_left by lra. apply float_pow_0.
Qed.


Lemma gradient_channel_at_0 (c e : Z) : gradient_channel c e 0 = c.
Proof.
  unfold gradient_channel. rewrite Rmult_0_r, Rplus_0_r. apply py_int_R_IZR.
Qed.


Lemma gradient_channel_between (c e : Z) (t : R) :
  (0 <= t <= 1)%R ->
  Z.min c e <= gradient_channel c e t <= Z.max c e.
Proof.
  intros Ht. unfold gradient_channel. apply py_int_R_between.
  destruct (Z.le_ge_cases c e) as [Hce|Hce].
  - rewrite Z.min_l, Z.max_r by lia. apply IZR_le in Hce. split; nra.
  - rewrite Z.min_r, Z.max_l by lia. apply IZR_le in Hce. split; nra.
Qed.

(** ** Claims on the radial gradient *)

Lemma gradient_center_pixel (w h : Z) (cc ec : rgb) :
  0 < w -> 0 < h -> Z.even w = true -> Z.even h = true ->
  getpixel (create_radial_gradient w h cc ec) (w / 2) (h / 2) =
    Some (tuple3 cc).
Proof.
  intros Hw Hh Ew Eh.
  assert (0 <= w / 2 < w) by (split; [apply Z.div_pos | apply Z.div_lt]; lia).
  assert (0 <= h / 2 < h) by (split; [apply Z.div_pos | apply Z.div_lt]; lia).
  rewrite create_radial_gradient_getpixel by assumption.
  destruct cc as [[c0 c1] c2], ec as [[e0 e1] e2].
  unfold gradient_pixel. rewrite gradient_ratio_center by assumption.
  rewrite !gradient_channel_at_0. reflexivity.
Qed.





(** C9.  For RGB colours, every channel of every pixel of the gradient
    lies between the matching channels of the centre colour and of the
    edge colour, both included. *)
Theorem create_radial_gradient_between (w h : Z) (cc ec : rgb) (x y : Z) :
  valid_rgb cc -> valid_rgb ec -> 0 <= x < w -> 0 <= y < h ->
  exists p, getpixel (create_radial_gradient w h cc ec) x y = Some p /\
            channels_between p cc ec.
Proof.
  intros _ _ Hx Hy. exists (gradient_pixel w h cc ec x y). split.
  - apply create_radial_gradient_getpixel; assumption.
  - destruct cc as [[c0 c1] c2], ec as [[e0 e1] e2].
    pose proof (gradient_ratio_unit w h x y ltac:(lia)) as Ht.
    unfold gradient_pixel, channels_between.
    repeat split; apply gradient_channel_between; exact Ht.
Qed.

Lemma create_radial_gradient_between_witness :
  exists p,
    getpixel (create_radial_gradient 16 16 (42, 107, 153) (15, 35, 60)) 3 5
      = Some p /\
    channels_between p (42, 107, 153) (15, 35, 60).
Proof.
  apply (create_radial_gradient_between 16 16 (42, 107, 153) (15, 35, 60) 3 5);
    cbn; lia.
Defined.

(** ** The app icon of the gradient theme *)

Lemma create_app_icon_frame (size : Z) (b : brand) :
  let icon := create_app_icon size b in
  im_mode icon = RGB /\ im_width icon = size /\ im_height icon = size.
Proof. repeat split. Qed.

Lemma create_app_icon_nexuspvr_center :
  getpixel (create_app_icon 1024 nexuspvr) 512 512 = Some [255; 255; 255].
Proof.
  destruct (create_radial_gradient_frame 1024 1024
              (gradient_center nexuspvr) (gradient_edge nexuspvr))
    as (Hm & Hw & Hh); [lia | lia |].
  pose proof (gradient_center_pixel 1024 1024 (gradient_center nexuspvr)
                (gradient_edge nexuspvr) ltac:(lia) ltac:(lia)
                eq_refl eq_refl) as Hc.
  change (1024 / 2) with 512 in Hc.
  unfold create_app_icon.
  set (bg := create_radial_gradient 1024 1024 _ _) in *.
  clearbody bg. destruct bg as [m w h px].
  cbn in Hm, Hw, Hh. subst m w h.
  unfold getpixel in Hc. cbn in Hc. injection Hc as Hc.
  set (mask := draw_rounded_rectangle _ _ _ _).
  assert (Hmask : im_px mask 512 512 = [255]) by (vm_compute; reflexivity).
  clearbody mask.
  set (overlay := draw_recording_dot _ _ _ _ _).
  assert (Hov : im_px overlay 512 512 = [255; 255; 255; 255])
    by (vm_compute; reflexivity).
  clearbody overlay.
  unfold getpixel.
  cbn -[zip_bands composite_pixel convert_pixel blend8 mask_value].
  change (512 - 0 - 0) with 512. change (512 - 0) with 512.
  rewrite Hc, Hmask, Hov. vm_compute. reflexivity.
Qed.

(** C1, as stated, fails: the centre pixel of the finished icon is not
    within rounding error of the gradient centre colour. *)
Lemma app_icon_center_counterexample :
  ~ (exists p, getpixel (create_app_icon 1024 nexuspvr) 512 512 = Some p /\
               within_rounding p (gradient_center nexuspvr)).
Proof.
  intros (p & Hp & Hr). rewrite create_app_icon_nexuspvr_center in Hp.
  injection Hp as <-. cbn in Hr. lia.
Qed.

(** ** Effects of statements *)

Lemma world_eq (d d' : gset path) (f f' : gmap path file) (t t' : list event) :
  d = d' -> f = f' -> t = t' ->
  {| w_dirs := d; w_files := f; w_trace := t |} =
  {| w_dirs := d'; w_files := f'; w_trace := t' |}.
Proof. intros -> -> ->. reflexivity. Qed.

Lemma write_all_app (l1 l2 : list (path * file)) (m : gmap path file) :
  write_all (l1 ++ l2) m = write_all l2 (write_all l1 m).
Proof. apply fold_left_app. Qed.

Lemma apply_effect_app (e1 e2 : effect) (w : world) :
  apply_effect e2 (apply_effect e1 w) = apply_effect (effect_app e1 e2) w.
Proof.
  unfold apply_effect, effect_app. cbn. apply world_eq.
  - rewrite list_to_set_app_L. symmetry. apply (assoc_L (∪)).
  - symmetry. apply write_all_app.
  - symmetry. apply app_assoc.
Qed.

Lemma apply_no_effect (w : world) : apply_effect no_effect w = w.
Proof.
  destruct w as [d f t]. unfold apply_effect, no_effect. cbn.
  apply world_eq; [apply (right_id_L ∅ (∪)) | reflexivity | apply app_nil_r].
Qed.

Lemma runs_ret {A : Type} (a : A) : runs (mret a) a no_effect.
Proof. intros w. rewrite apply_no_effect. reflexivity. Qed.

Lemma runs_bind {A B : Type} (m : M A) (k : A -> M B) (a : A) (b : B)
    (e1 e2 : effect) :
  runs m a e1 -> runs (k a) b e2 -> runs (m ≫= k) b (effect_app e1 e2).
Proof.
  intros H1 H2 w. unfold mbind, script_bind. rewrite H1, H2.
  f_equal. apply apply_effect_app.
Qed.

Lemma runs_ext {A : Type} (m : M A) (a : A) (e e' : effect) :
  runs m a e -> e = e' -> runs m a e'.
Proof. intros H <-. exact H. Qed.

Lemma runs_log (ev : event) :
  runs (log ev) tt {| e_dirs := []; e_files := []; e_trace := [ev] |}.
Proof.
  intros w. unfold log, apply_effect. cbn. f_equal. apply world_eq; try easy.
  symmetry. apply (right_id_L ∅ (∪)).
Qed.

Lemma runs_call (c : composer) (width height : Z) (img : image) :
  runs (call c width height img) img
       {| e_dirs := []; e_files := [];
          e_trace := [Composed c width height] |}.
Proof.
  unfold call.
  eapply runs_ext; [eapply runs_bind; [apply runs_log | apply runs_ret]|].
  reflexivity.
Qed.

Lemma in_prefixes_from (acc d : path) :
  d <> [] -> acc ++ d ∈ prefixes_from acc d.
Proof.
  revert acc. induction d as [|c d IH]; intros acc Hd; [congruence|].
  cbn. destruct d as [|c' d].
  - apply list_elem_of_here.
  - apply list_elem_of_further.
    replace (acc ++ c :: c' :: d) with ((acc ++ [c]) ++ c' :: d)
      by (rewrite <- app_assoc; reflexivity).
    apply IH. discriminate.
Qed.

Lemma is_dir_after_makedirs (dirs : gset path) (f : gmap path file)
    (t : list event) (d : path) :
  is_dir {| w_dirs := dirs ∪ list_to_set (prefixes_from [] d);
            w_files := f; w_trace := t |} d.
Proof.
  unfold is_dir. cbn. destruct d as [|c d]; [left; reflexivity|].
  right. apply elem_of_union_r, elem_of_list_to_set.
  apply (in_prefixes_from [] (c :: d)). discriminate.
Qed.

Lemma runs_save (img : image) (p : path) (force_rgb : bool) :
  runs (save img p force_rgb) tt (save_effect img p force_rgb).
Proof.
  intros w. unfold save, makedirs, Image_save, put_file, mbind, script_bind.
  destruct (decide _) as [_|Hn].
  - f_equal. unfold apply_effect, save_effect. cbn.
    apply world_eq; [reflexivity | reflexivity | symmetry; apply app_nil_r].
  - exfalso. apply Hn. apply is_dir_after_makedirs.
Qed.

Lemma runs_for_each {A : Type} (xs : list A) (body : A -> M unit)
    (eff : A -> effect) :
  (forall x, x ∈ xs -> runs (body x) tt (eff x)) ->
  runs (for_each xs body) tt (foldr (fun x e => effect_app (eff x) e)
                                    no_effect xs).
Proof.
  induction xs as [|x xs IH]; intros Hbody.
  - apply runs_ret.
  - apply (runs_bind (body x) (fun _ => for_each xs body) tt tt).
    + apply Hbody. apply list_elem_of_here.
    + apply IH. intros y Hy. apply Hbody. apply list_elem_of_further. exact Hy.
Qed.

(** ** Reading back what was written *)

Lemma write_all_lookup (fs : list (path * file)) (m : gmap path file)
    (p : path) :
  write_all fs m !! p =
    match last_write fs p with Some f => Some f | None => m !! p end.
Proof.
  revert m. induction fs as [|[q f] fs IH]; intros m; cbn; [reflexivity|].
  rewrite IH. destruct (last_write fs p); [reflexivity|].
  destruct (decide (q = p)) as [->|Hne].
  - apply lookup_insert_eq.
  - apply lookup_insert_ne. exact Hne.
Qed.

Lemma write_all_twice (fs : list (path * file)) (m : gmap path file) :
  write_all fs (write_all fs m) = write_all fs m.
Proof.
  apply map_eq. intros p. rewrite !write_all_lookup.
  destruct (last_write fs p); reflexivity.
Qed.

Lemma last_write_elem (fs : list (path * file)) (p : path) :
  is_Some (last_write fs p) -> p ∈ fs.*1.
Proof.
  induction fs as [|[q g] fs IH]; cbn; intros [f Hf]; [discriminate|].
  destruct (last_write fs p) eqn:E.
  - apply list_elem_of_further, IH. eauto.
  - destruct (decide (q = p)) as [->|]; [|discriminate].
    apply list_elem_of_here.
Qed.

Lemma last_write_NoDup (fs : list (path * file)) (p : path) (f : file) :
  NoDup (fs.*1) -> (p, f) ∈ fs -> last_write fs p = Some f.
Proof.
  induction fs as [|[q g] fs IH]; intros Hnd Hin.
  - apply elem_of_nil in Hin. contradiction.
  - cbn in Hnd. apply NoDup_cons in Hnd as [Hq Hnd].
    apply elem_of_cons in Hin as [Heq|Hin]; cbn.
    + injection Heq as <- <-.
      destruct (last_write fs p) eqn:E.
      * exfalso. apply Hq, last_write_elem. rewrite E. eauto.
      * rewrite decide_True by reflexivity. reflexivity.
    + rewrite (IH Hnd Hin). reflexivity.
Qed.

Lemma last_write_None (fs : list (path * file)) (p : path) :
  p ∉ fs.*1 -> last_write fs p = None.
Proof.
  induction fs as [|[q g] fs IH]; intros Hp; cbn; [reflexivity|].
  cbn in Hp. apply not_elem_of_cons in Hp as [Hne Hp].
  rewrite (IH Hp). rewrite decide_False by congruence. reflexivity.
Qed.

(** ** The icon loop and its cache *)

Lemma effect_eq (d d' : list path) (fs fs' : list (path * file))
    (t t' : list event) :
  d = d' -> fs = fs' -> t = t' ->
  {| e_dirs := d; e_files := fs; e_trace := t |} =
  {| e_dirs := d'; e_files := fs'; e_trace := t' |}.
Proof. intros -> -> ->. reflexivity. Qed.

Lemma effect_ext (e e' : effect) :
  e_dirs e = e_dirs e' -> e_files e = e_files e' -> e_trace e = e_trace e' ->
  e = e'.
Proof. destruct e, e'. cbn. intros -> -> ->. reflexivity. Qed.

Section IconLoop.
Variable render : Z -> M image.
Variable c : composer.
Variable f : Z -> image.
Hypothesis render_calls : forall sz, render sz = call c sz sz (f sz).
Variable icon_dir : path.

Lemma icon_loop_runs (entries : list (string * Z)) (cache : gmap Z image) :
  coherent f cache ->
  exists cache',
    coherent f cache' /\ cache ⊆ cache' /\
    (forall e, e ∈ entries -> is_Some (cache' !! e.2)) /\
    runs (icon_loop render icon_dir entries cache) cache'
         (icon_loop_effect c f icon_dir (dom cache) entries).
Proof.
  revert cache. induction entries as [|[fn sz] rest IH]; intros cache Hco.
  - exists cache. split; [exact Hco|]. split; [reflexivity|]. split.
    + intros e He. apply elem_of_nil in He. contradiction.
    + apply runs_ret.
  - cbn [icon_loop]. destruct (cache !! sz) as [img|] eqn:Hsz.
    + destruct (IH cache Hco) as (cache' & Hco' & Hsub & Hall & Hrun).
      exists cache'. split; [exact Hco'|]. split; [exact Hsub|]. split.
      * intros e He. apply elem_of_cons in He as [->|He]; [|auto].
        exists img. apply (lookup_weaken cache); assumption.
      * eapply runs_ext.
        { eapply runs_bind; [apply runs_ret|]. cbv beta. rewrite Hsz.
          eapply runs_bind; [apply runs_save | exact Hrun]. }
        rewrite (Hco sz img Hsz).
        unfold icon_loop_effect, effect_app, save_effect, no_effect.
        cbn [e_dirs e_files e_trace map concat fmap list_fmap snd fst
             first_seen app].
        rewrite decide_True by (apply elem_of_dom; eauto).
        apply effect_eq; reflexivity.
    + assert (Hco1 : coherent f (<[sz := f sz]> cache)).
      { intros sz' img' Hl. destruct (decide (sz = sz')) as [<-|Hne].
        - rewrite lookup_insert_eq in Hl. congruence.
        - rewrite lookup_insert_ne in Hl by exact Hne. eauto. }
      destruct (IH _ Hco1) as (cache' & Hco' & Hsub & Hall & Hrun).
      exists cache'. split; [exact Hco'|]. split.
      { etransitivity; [|exact Hsub]. apply insert_subseteq. exact Hsz. }
      split.
      * intros e He. apply elem_of_cons in He as [->|He]; [|auto].
        exists (f sz). apply (lookup_weaken (<[sz := f sz]> cache));
          [apply lookup_insert_eq | exact Hsub].
      * eapply runs_ext.
        { eapply runs_bind.
          - eapply runs_bind; [rewrite render_calls; apply runs_call|].
            cbv beta. apply runs_ret.
          - cbv beta. rewrite lookup_insert_eq.
            eapply runs_bind; [apply runs_save | exact Hrun]. }
        unfold icon_loop_effect, effect_app, save_effect, no_effect.
        cbn [e_dirs e_files e_trace map concat fmap list_fmap snd fst
             first_seen app].
        rewrite decide_False by (apply not_elem_of_dom; exact Hsz).
        rewrite dom_insert_L, ?app_nil_r.
        apply effect_eq; reflexivity.
Qed.

Lemma icon_loop_fresh_runs (entries : list (string * Z)) :
  runs (icon_loop_fresh render icon_dir entries) tt
    {| e_dirs := e_dirs (icon_loop_effect c f icon_dir ∅ entries);
       e_files := e_files (icon_loop_effect c f icon_dir ∅ entries);
       e_trace := map (fun sz => Composed c sz sz) (entries.*2) |}.
Proof.
  unfold icon_loop_fresh. eapply runs_ext.
  { apply runs_for_each. intros e _.
    eapply runs_bind; [rewrite render_calls; apply runs_call|].
    cbv beta. apply runs_save. }
  induction entries as [|[fn sz] rest IH]; [reflexivity|].
  cbn [foldr]. rewrite IH.
  unfold icon_loop_effect, effect_app, save_effect.
  cbn [e_dirs e_files e_trace map concat fmap list_fmap snd fst app].
  apply effect_eq; reflexivity.
Qed.
End IconLoop.

Lemma icon_sizes_first_seen :
  first_seen ∅ (icon_sizes.*2) = [1024; 512; 256; 128; 64; 32; 16].
Proof. vm_compute. reflexivity. Qed.

Lemma icon_filenames_NoDup : NoDup (icon_sizes.*1).
Proof. apply (bool_decide_unpack _). vm_compute. exact I. Qed.

Section IconCache.
Variable render : Z -> M image.
Variable c : composer.
Variable f : Z -> image.
Hypothesis render_calls : forall sz, render sz = call c sz sz (f sz).

Lemma icon_paths_NoDup (icon_dir : path) (entries : list (string * Z)) :
  NoDup (entries.*1) ->
  NoDup ((map (fun e : string * Z =>
                 (icon_dir ++ [e.1], ImageFile (saved true (f e.2))))
              entries).*1).
Proof.
  intros Hnd.
  replace ((map (fun e : string * Z =>
                   (icon_dir ++ [e.1], ImageFile (saved true (f e.2))))
                entries).*1)
    with ((fun fn : string => icon_dir ++ [fn]) <$> entries.*1).
  - apply NoDup_fmap_2; [|exact Hnd].
    intros a b Hab. apply app_inv_head in Hab. congruence.
  - induction entries as [|e rest IH]; [reflexivity|].
    cbn. f_equal. apply IH. cbn in Hnd. apply NoDup_cons in Hnd. tauto.
Qed.

Lemma icon_cache_generic (icon_dir : path) (entries : list (string * Z))
    (w : world) :
  NoDup (entries.*1) ->
  exists (cache : gmap Z image) (w1 w2 : world),
    icon_loop render icon_dir entries ∅ w = Ok cache w1 /\
    icon_loop_fresh render icon_dir entries w = Ok tt w2 /\
    w_files w1 = w_files w2 /\ w_dirs w1 = w_dirs w2 /\
    w_trace w1 = w_trace w ++
      map (fun sz => Composed c sz sz) (first_seen ∅ (entries.*2)) /\
    w_trace w2 = w_trace w ++ map (fun sz => Composed c sz sz) (entries.*2) /\
    (forall fn sz, (fn, sz) ∈ entries ->
       exists img, cache !! sz = Some img /\
         (forall w0, exists w0', render sz w0 = Ok img w0') /\
         w_files w1 !! (icon_dir ++ [fn]) = Some (ImageFile (saved true img))).
Proof.
  intros Hnd.
  destruct (icon_loop_runs render c f render_calls icon_dir entries ∅)
    as (cache & Hco & _ & Hall & Hrun).
  { intros sz img Hl. rewrite lookup_empty in Hl. discriminate. }
  rewrite dom_empty_L in Hrun.
  pose proof (icon_loop_fresh_runs render c f render_calls icon_dir entries)
    as Hfresh.
  exists cache, (apply_effect (icon_loop_effect c f icon_dir ∅ entries) w).
  eexists. split; [apply Hrun|]. split; [apply Hfresh|].
  split; [reflexivity|]. split; [reflexivity|]. split; [reflexivity|].
  split; [reflexivity|].
  intros fn sz Hin. destruct (Hall (fn, sz) Hin) as [img Himg].
  cbn in Himg. exists img. split; [exact Himg|].
  pose proof (Hco sz img Himg) as ->. split.
  - intros w0. eexists. rewrite render_calls. apply runs_call.
  - cbn [apply_effect w_files icon_loop_effect e_files].
    rewrite write_all_lookup.
    rewrite (last_write_NoDup _ _ (ImageFile (saved true (f sz))));
      [reflexivity | apply icon_paths_NoDup; exact Hnd |].
    apply (list_elem_of_fmap_2
             (fun e : string * Z =>
                (icon_dir ++ [e.1], ImageFile (saved true (f e.2))))
             entries (fn, sz)).
    exact Hin.
Qed.
End IconCache.

(** C4.  For both brands the cached icon loop and the loop that renders
    every manifest entry afresh leave the same files and directories; the
    cached loop calls the composer once for each of the seven distinct
    sizes; and every manifest file holds the cached image of its size,
    which is the image a fresh rendering of that size returns. *)
Theorem icon_cache_refines_fresh `{Pillow} :
  Forall (fun kb : string * brand =>
    let render := render_icon (String.eqb kb.1 "dispatcherpvr") kb.2 in
    forall (icon_dir : path) (w : world),
    exists (cache : gmap Z image) (w1 w2 : world),
      icon_loop render icon_dir icon_sizes ∅ w = Ok cache w1 /\
      icon_loop_fresh render icon_dir icon_sizes w = Ok tt w2 /\
      w_files w1 = w_files w2 /\ w_dirs w1 = w_dirs w2 /\
      (exists c, w_trace w1 = w_trace w ++
         map (fun sz => Composed c sz sz) [1024; 512; 256; 128; 64; 32; 16]) /\
      (forall fn sz, (fn, sz) ∈ icon_sizes ->
         exists img, cache !! sz = Some img /\
           (forall w0, exists w0', render sz w0 = Ok img w0') /\
           w_files w1 !! (icon_dir ++ [fn]) =
             Some (ImageFile (saved true img))))
  BRANDS.
Proof.
  assert (Hgen : forall (is_crt : bool) (b : brand) (icon_dir : path)
                        (w : world),
    exists (cache : gmap Z image) (w1 w2 : world),
      icon_loop (render_icon is_crt b) icon_dir icon_sizes ∅ w = Ok cache w1 /\
      icon_loop_fresh (render_icon is_crt b) icon_dir icon_sizes w = Ok tt w2 /\
      w_files w1 = w_files w2 /\ w_dirs w1 = w_dirs w2 /\
      (exists c, w_trace w1 = w_trace w ++
         map (fun sz => Composed c sz sz) [1024; 512; 256; 128; 64; 32; 16]) /\
      (forall fn sz, (fn, sz) ∈ icon_sizes ->
         exists img, cache !! sz = Some img /\
           (forall w0, exists w0', render_icon is_crt b sz w0 = Ok img w0') /\
           w_files w1 !! (icon_dir ++ [fn]) =
             Some (ImageFile (saved true img)))).
  { intros is_crt b icon_dir w.
    set (c := if is_crt then c_create_crt_icon else c_create_app_icon).
    set (f := fun sz => if is_crt then create_crt_icon sz b
                        else create_app_icon sz b).
    assert (Hr : forall sz, render_icon is_crt b sz = call c sz sz (f sz))
      by (intros sz; unfold render_icon, c, f; destruct is_crt; reflexivity).
    destruct (icon_cache_generic _ c f Hr icon_dir icon_sizes w
                icon_filenames_NoDup)
      as (cache & w1 & w2 & H1 & H2 & H3 & H4 & H5 & _ & H7).
    exists cache, w1, w2. repeat (split; [assumption|]). split; [|exact H7].
    exists c. rewrite H5, icon_sizes_first_seen. reflexivity. }
  unfold BRANDS. repeat apply List.Forall_cons; try apply List.Forall_nil;
    cbv beta zeta; intros icon_dir w; apply Hgen.
Qed.

(** ** Colorset writers *)

Lemma dirname_app2 (d : path) (a b : string) : dirname (d ++ [a; b]) = d ++ [a].
Proof.
  unfold dirname. rewrite removelast_app by discriminate. reflexivity.
Qed.

Lemma runs_write_text (p : path) (s : string) :
  runs (makedirs (dirname p);; open_w p;; f_write p s;; f_write p newline) tt
       (text_effect p (s +:+ newline)).
Proof.
  intros w.
  unfold makedirs, open_w, put_file, f_write, mbind, script_bind.
  destruct (decide _) as [_|Hn];
    [|exfalso; apply Hn; apply is_dir_after_makedirs].
  cbn [w_files w_dirs w_trace]. rewrite lookup_insert_eq.
  cbn [w_files w_dirs w_trace]. rewrite lookup_insert_eq.
  f_equal. unfold apply_effect, text_effect. cbn.
  apply world_eq; [reflexivity | | symmetry; apply app_nil_r].
  rewrite !insert_insert_eq. reflexivity.
Qed.

Lemma runs_write_accent_colorset (assets : path)
    (accent : option (Q * Q * Q)) :
  runs (write_accent_colorset assets accent) tt
       (text_effect (assets ++ ["AccentColor.colorset"; "Contents.json"]%string)
                    (json_dumps (accent_data accent) +:+ newline)).
Proof. apply runs_write_text. Qed.

Lemma runs_write_launch_bg_colorset (assets : path) (c : Q * Q * Q) :
  runs (write_launch_bg_colorset assets c) tt
       (text_effect
          (assets ++ ["LaunchBackground.colorset"; "Contents.json"]%string)
          (json_dumps (launch_bg_data c) +:+ newline)).
Proof. apply runs_write_text. Qed.

(** ** The orchestrator *)

Lemma runs_call_if (t : bool) (c1 c2 : composer) (width height : Z)
    (img1 img2 : image) :
  runs (if t then call c1 width height img1 else call c2 width height img2)
       (if t then img1 else img2)
       {| e_dirs := []; e_files := [];
          e_trace := [Composed (if t then c1 else c2) width height] |}.
Proof. destruct t; apply runs_call. Qed.

Ltac run_step :=
  lazymatch goal with
  | |- runs (mret _) _ _ => apply runs_ret
  | |- runs (save _ _ _) _ _ => apply runs_save
  | |- runs (call _ _ _ _) _ _ => apply runs_call
  | |- runs (if _ then call _ _ _ _ else call _ _ _ _) _ _ =>
      apply runs_call_if
  | |- runs (write_accent_colorset _ _) _ _ => apply runs_write_accent_colorset
  | |- runs (write_launch_bg_colorset _ _) _ _ =>
      apply runs_write_launch_bg_colorset
  | |- runs (_ ≫= _) _ _ => eapply runs_bind; [|cbv beta]
  end.

Lemma generate_runs `{Pillow} (script : path) (brand_key : string) (b : brand) :
  dict_get BRANDS brand_key = Some b ->
  exists dirs,
    runs (generate script brand_key) tt
         {| e_dirs := dirs;
            e_files := manifest script (is_crt_key brand_key) b;
            e_trace := composer_calls (is_crt_key brand_key) |}.
Proof.
  intros Hb. unfold generate, is_crt_key. rewrite Hb. cbv zeta.
  generalize (String.eqb brand_key "dispatcherpvr"). intros is_crt.
  set (assets := dirname (dirname script) ++ assets_dir b).
  destruct (icon_loop_runs (render_icon is_crt b)
              (if is_crt then c_create_crt_icon else c_create_app_icon)
              (icon_image is_crt b)
              ltac:(intros sz; unfold render_icon, icon_image;
                    destruct is_crt; reflexivity)
              (assets ++ ["AppIcon.appiconset"%string]) icon_sizes ∅)
    as (cache & _ & _ & _ & Hicons).
  { intros sz img Hl. rewrite lookup_empty in Hl. discriminate. }
  rewrite dom_empty_L in Hicons.
  eexists. eapply runs_ext.
  { eapply runs_bind; [exact Hicons|]. cbv beta.
    unfold launch_sizes, tvos_layers, shelf_fn. cbn [for_each].
    repeat run_step. }
  apply effect_ext.
  - reflexivity.
  - cbn [e_files effect_app icon_loop_effect save_effect text_effect
         no_effect app].
    reflexivity.
  - cbn [e_trace effect_app icon_loop_effect save_effect text_effect
         no_effect app].
    rewrite icon_sizes_first_seen. reflexivity.
Qed.

(** ** Three-decimal formatting *)

Lemma round_half_even_near (q : Q) :
  (inject_Z (round_half_even q) - (1 # 2) <= q)%Q /\
  (q <= inject_Z (round_half_even q) + (1 # 2))%Q.
Proof.
  unfold round_half_even.
  pose proof (Qfloor_le q) as Hlo. pose proof (Qlt_floor q) as Hhi.
  rewrite inject_Z_plus in Hhi. change (inject_Z 1) with 1%Q in Hhi.
  destruct (q - inject_Z (Qfloor q) ?= 1 # 2)%Q eqn:E.
  - apply Qeq_alt in E.
    destruct (Z.even (Qfloor q)); rewrite ?inject_Z_plus;
      change (inject_Z 1) with 1%Q; split; Lqa.lra.
  - apply Qlt_alt in E. split; Lqa.lra.
  - apply Qgt_alt in E. rewrite inject_Z_plus.
    change (inject_Z 1) with 1%Q. split; Lqa.lra.
Qed.

Lemma round_half_even_tie (q : Q) :
  (Qabs (q - inject_Z (round_half_even q)) == 1 # 2)%Q ->
  Z.even (round_half_even q) = true.
Proof.
  unfold round_half_even.
  pose proof (Qfloor_le q) as Hlo. pose proof (Qlt_floor q) as Hhi.
  rewrite inject_Z_plus in Hhi. change (inject_Z 1) with 1%Q in Hhi.
  destruct (q - inject_Z (Qfloor q) ?= 1 # 2)%Q eqn:E.
  - apply Qeq_alt in E. destruct (Z.even (Qfloor q)) eqn:Ev; intros _.
    + exact Ev.
    + rewrite Z.even_add, Ev. reflexivity.
  - apply Qlt_alt in E. intros Ht. exfalso.
    rewrite Qabs_pos in Ht by Lqa.lra. Lqa.lra.
  - apply Qgt_alt in E. intros Ht. exfalso.
    rewrite inject_Z_plus in Ht. change (inject_Z 1) with 1%Q in Ht.
    rewrite Qabs_neg in Ht by Lqa.lra. Lqa.lra.
Qed.

Lemma inject_Z_lt_inv (a b : Z) : (inject_Z a < inject_Z b)%Q -> a < b.
Proof. unfold Qlt, inject_Z. cbn. lia. Qed.

Lemma round_half_even_unit (x : Q) :
  (0 <= x)%Q -> (x <= 1)%Q -> 0 <= round_half_even (x * 1000) <= 1000.
Proof.
  intros H0 H1. destruct (round_half_even_near (x * 1000)) as [Ha Hb].
  split.
  - cut (-1 < round_half_even (x * 1000)); [lia|].
    apply inject_Z_lt_inv. change (inject_Z (-1)) with (-1 # 1)%Q. Lqa.lra.
  - cut (round_half_even (x * 1000) < 1001); [lia|].
    apply inject_Z_lt_inv. change (inject_Z 1001) with (1001 # 1)%Q. Lqa.lra.
Qed.

Lemma parse_format_all :
  forallb parse_format_ok (map Z.of_nat (seq 0 1001)) = true.
Proof. vm_compute. reflexivity. Qed.

Lemma parse_format_milli (n : Z) :
  0 <= n <= 1000 -> parse_decimal (format_milli n) = Some (Qmake n 1000).
Proof.
  intros Hn. pose proof parse_format_all as Hall.
  rewrite forallb_forall in Hall.
  specialize (Hall n). unfold parse_format_ok in Hall.
  destruct (parse_decimal (format_milli n)) as [[a b]|].
  - cbn [Qnum Qden] in Hall. assert (Hin : In n (map Z.of_nat (seq 0 1001))).
    { apply in_map_iff. exists (Z.to_nat n). split; [lia|].
      apply in_seq. lia. }
    specialize (Hall Hin). apply andb_true_iff in Hall as [Ha Hb].
    apply Z.eqb_eq in Ha. apply Pos.eqb_eq in Hb. subst. reflexivity.
  - assert (Hin : In n (map Z.of_nat (seq 0 1001))).
    { apply in_map_iff. exists (Z.to_nat n). split; [lia|].
      apply in_seq. lia. }
    specialize (Hall Hin). discriminate.
Qed.

(** ** The float of a fraction *)

(** Around a fraction of the unit interval the binary64 numbers are spaced
    by [1 / N] for a power of two [N >= 2 ** 52]. *)
Lemma ulp_unit (x : Q) :
  (0 < x)%Q -> (x <= 1)%Q ->
  exists N : Z, 2 ^ 52 <= N /\ ulp x = 1 # Z.to_pos N.
Proof.
  intros H0 H1. destruct x as [n d]. unfold Qlt in H0. unfold Qle in H1.
  cbn in H0, H1. unfold ulp, Qabs. rewrite Z.abs_eq by lia.
  set (j := Z.max (Qlog2 (n # d) - 52) (-1074)).
  assert (Hj : -1074 <= j <= -52).
  { unfold j, Qlog2. cbn [Qnum Qden].
    assert (Z.log2 n <= Z.log2 (Z.pos d)) by (apply Z.log2_le_mono; lia).
    destruct (Qle_bool _ _); lia. }
  exists (2 ^ (- j)). split.
  - apply Z.pow_le_mono_r; lia.
  - unfold pow2. destruct (Z.leb_spec 0 j); [lia | reflexivity].
Qed.

Lemma binary64_unit_bounds (x : Q) :
  (0 <= x)%Q -> (x <= 1)%Q ->
  (0 <= binary64 x)%Q /\ (binary64 x <= 1)%Q /\
  (Qabs (binary64 x - x) <= 1 # 9007199254740992)%Q.
Proof.
  intros H0 H1. unfold binary64.
  destruct (Qeq_bool x 0) eqn:E.
  - apply Qeq_bool_iff in E. repeat split; try Lqa.lra.
    apply Qabs_Qle_condition. split; Lqa.lra.
  - assert (Hx : (0 < x)%Q).
    { apply Qeq_bool_neq in E. apply Qle_lteq in H0 as [H0|H0];
        [exact H0 | symmetry in H0; contradiction]. }
    destruct (ulp_unit x Hx H1) as (N & HN & ->).
    destruct N as [|P|P]; try lia. cbn [Z.to_pos].
    assert (Hdiv : (x / (1 # P) == x * inject_Z (Z.pos P))%Q).
    { unfold Qdiv, Qinv. cbn. reflexivity. }
    destruct (round_half_even_near (x / (1 # P))) as [Ha Hb].
    set (m := round_half_even (x / (1 # P))) in *.
    rewrite Hdiv in Ha, Hb.
    assert (Hu : ((1 # P) * inject_Z (Z.pos P) == 1)%Q).
    { unfold Qeq, Qmult, inject_Z. cbn. lia. }
    assert (Hm0 : 0 <= m).
    { cut (-1 < m); [lia|]. apply inject_Z_lt_inv.
      change (inject_Z (-1)) with (-1 # 1)%Q.
      assert (0 <= x * inject_Z (Z.pos P))%Q
        by (apply Qmult_le_0_compat; [Lqa.lra | discriminate]).
      Lqa.lra. }
    assert (HmN : m <= Z.pos P).
    { cut (m < Z.pos P + 1); [lia|]. apply inject_Z_lt_inv.
      rewrite inject_Z_plus. change (inject_Z 1) with 1%Q.
      assert (x * inject_Z (Z.pos P) <= 1 * inject_Z (Z.pos P))%Q
        by (apply Qmult_le_compat_r; [Lqa.lra | discriminate]).
      Lqa.lra. }
    assert (Hval : (inject_Z m * (1 # P) == m # P)%Q).
    { unfold Qeq, Qmult, inject_Z. cbn. lia. }
    rewrite Hval. repeat split.
    + unfold Qle. cbn. lia.
    + unfold Qle. cbn. lia.
    + apply Qabs_Qle_condition.
      destruct x as [n d].
      unfold Qle, Qminus, Qplus, Qopp, Qmult, inject_Z in *.
      cbn in *. split; nia.
Qed.

Lemma format_3f_round_trips (x : Q) :
  (0 <= x)%Q -> (x <= 1)%Q -> component_round_trips x.
Proof.
  intros H0 H1.
  destruct (binary64_unit_bounds x H0 H1) as (B0 & B1 & Bn).
  exists (round_half_even (binary64 x * 1000)).
  pose proof (round_half_even_unit (binary64 x) B0 B1) as Hn.
  destruct (round_half_even_near (binary64 x * 1000)) as [Ha Hb].
  set (n := round_half_even (binary64 x * 1000)) in *.
  assert (Hq : (Qmake n 1000 == inject_Z n * (1 # 1000))%Q).
  { unfold Qeq, Qmult, inject_Z. cbn. lia. }
  split; [exact Hn|]. split; [apply parse_format_milli; exact Hn|].
  split; [|split].
  - rewrite Hq. apply Qabs_Qle_condition. split; Lqa.lra.
  - intros Ht. apply round_half_even_tie. fold n.
    rewrite Hq in Ht.
    assert (Hs : (binary64 x * 1000 - inject_Z n ==
                  (binary64 x - inject_Z n * (1 # 1000)) * 1000)%Q)
      by Lqa.lra.
    rewrite Hs, Qabs_Qmult, Ht. reflexivity.
  - intros k Hk. apply Qabs_Qle_condition in Bn as [Bl Bu].
    assert (Hk' : (x == inject_Z k * (1 # 1000))%Q).
    { rewrite Hk. unfold Qeq, Qmult, inject_Z. cbn. lia. }
    clear Hk.
    assert (inject_Z (n - 1) < inject_Z k)%Q.
    { replace (n - 1) with (n + -1) by lia. rewrite inject_Z_plus.
      change (inject_Z (-1)) with (-1 # 1)%Q. Lqa.lra. }
    assert (inject_Z k < inject_Z (n + 1))%Q.
    { rewrite inject_Z_plus. change (inject_Z 1) with 1%Q. Lqa.lra. }
    apply inject_Z_lt_inv in H, H2. lia.
Qed.

(** ** The text of a colorset document *)

Lemma append_assoc (a b c : string) : (a +:+ b) +:+ c = a +:+ (b +:+ c).
Proof.
  induction a as [|ch a IH]; [reflexivity|].
  change (String ch ((a +:+ b) +:+ c) = String ch (a +:+ (b +:+ c))).
  f_equal. exact IH.
Qed.

Lemma json_dumps_default_colorset :
  json_dumps (accent_data None) +:+ newline = expected_default_colorset.
Proof. vm_compute. reflexivity. Qed.

(** The dump of a colour entry whose component strings need no escape. *)
Lemma json_dumps_colorset_text (sr sg sb : string) :
  json_escape sr = sr -> json_escape sg = sg -> json_escape sb = sb ->
  json_dumps
    (JObject [
       ("colors", JArray [
          JObject [
            ("color", JObject [
               ("color-space", JString "srgb");
               ("components", JObject [
                  ("alpha", JString "1.000");
                  ("blue", JString sb);
                  ("green", JString sg);
                  ("red", JString sr) ]) ]);
            ("idiom", JString "universal") ] ]);
       ("info", info_entry) ]) +:+ newline =
  expected_colorset sr sg sb.
Proof.
  intros Hr Hg Hb. unfold expected_colorset, json_dumps.
  cbn [json_encode info_entry map String.concat fst snd].
  unfold json_quote. rewrite Hr, Hg, Hb.
  rewrite !append_assoc. cbn. rewrite !append_assoc. reflexivity.
Qed.

Lemma format_milli_escape_all :
  forallb (fun n => String.eqb (json_escape (format_milli n)) (format_milli n))
          (map Z.of_nat (seq 0 1001)) = true.
Proof. vm_compute. reflexivity. Qed.

Lemma format_3f_escape (x : Q) :
  (0 <= x)%Q -> (x <= 1)%Q -> json_escape (format_3f x) = format_3f x.
Proof.
  intros H0 H1. destruct (binary64_unit_bounds x H0 H1) as (B0 & B1 & _).
  pose proof (round_half_even_unit (binary64 x) B0 B1) as Hn.
  unfold format_3f. set (n := round_half_even (binary64 x * 1000)) in *.
  pose proof format_milli_escape_all as Hall.
  rewrite forallb_forall in Hall. apply String.eqb_eq, Hall.
  apply in_map_iff. exists (Z.to_nat n). split; [lia|]. apply in_seq. lia.
Qed.

Lemma colorset_text (r g b : Q) :
  (0 <= r)%Q -> (r <= 1)%Q -> (0 <= g)%Q -> (g <= 1)%Q ->
  (0 <= b)%Q -> (b <= 1)%Q ->
  json_dumps (launch_bg_data (r, g, b)) +:+ newline =
    expected_colorset (format_3f r) (format_3f g) (format_3f b) /\
  json_dumps (accent_data (Some (r, g, b))) +:+ newline =
    expected_colorset (format_3f r) (format_3f g) (format_3f b).
Proof.
  intros Hr0 Hr1 Hg0 Hg1 Hb0 Hb1.
  split; apply json_dumps_colorset_text; apply format_3f_escape; assumption.
Qed.

(** ** Claims on the colorset writer, the CRT radii and the command line *)

(** C5.  With no accent colour the file written is the document whose
    first [colors] entry is [{"idiom": "universal"}] and has no ["color"]
    key; with an accent colour of components in [0, 1] it is the document
    whose three component strings are the [.3f] prints, each of which
    reads back as the float component rounded to three decimals, and as
    the component written in the script when that has three decimals.  In
    both cases the text on disk is given character by character, ends
    with a line feed, and the directory of the file exists afterwards,
    whatever the world before. *)
Theorem write_accent_colorset_document (assets : path) (w : world)
    (r g b : Q) :
  (0 <= r)%Q -> (r <= 1)%Q -> (0 <= g)%Q -> (g <= 1)%Q ->
  (0 <= b)%Q -> (b <= 1)%Q ->
  let p := assets ++ ["AccentColor.colorset"; "Contents.json"]%string in
  (exists w',
     write_accent_colorset assets None w = Ok tt w' /\
     w_files w' !! p = Some (TextFile expected_default_colorset) /\
     is_dir w' (dirname p) /\
     first_color (accent_data None) =
       Some (JObject [("idiom"%string, JString "universal")]) /\
     (forall entry, first_color (accent_data None) = Some entry ->
        json_get entry "color" = None)) /\
  (let data := accent_data (Some (r, g, b)) in
   exists w',
     write_accent_colorset assets (Some (r, g, b)) w = Ok tt w' /\
     w_files w' !! p =
       Some (TextFile (expected_colorset (format_3f r) (format_3f g)
                         (format_3f b))) /\
     is_dir w' (dirname p) /\
     component data "red" = Some (JString (format_3f r)) /\
     component data "green" = Some (JString (format_3f g)) /\
     component data "blue" = Some (JString (format_3f b)) /\
     component data "alpha" = Some (JString "1.000") /\
     component_round_trips r /\ component_round_trips g /\
     component_round_trips b).
Proof.
  intros Hr0 Hr1 Hg0 Hg1 Hb0 Hb1 p.
  assert (Hw : forall accent,
    exists w', write_accent_colorset assets accent w = Ok tt w' /\
      w_files w' !! p =
        Some (TextFile (json_dumps (accent_data accent) +:+ newline)) /\
      is_dir w' (dirname p)).
  { intros accent. eexists. split; [apply runs_write_accent_colorset|].
    fold p. unfold apply_effect, text_effect.
    cbn [w_files w_dirs e_files e_dirs write_all fold_left fst snd].
    split; [apply lookup_insert_eq|]. apply is_dir_after_makedirs. }
  split.
  - destruct (Hw None) as (w' & H1 & H2 & H3). exists w'.
    rewrite json_dumps_default_colorset in H2.
    repeat (split; [assumption|]). split; [reflexivity|].
    intros entry He. cbn in He. injection He as <-. reflexivity.
  - cbv zeta. destruct (Hw (Some (r, g, b))) as (w' & H1 & H2 & H3).
    rewrite (proj2 (colorset_text r g b Hr0 Hr1 Hg0 Hg1 Hb0 Hb1)) in H2.
    exists w'. repeat (split; [assumption|]).
    repeat (split; [reflexivity|]).
    repeat split; apply format_3f_round_trips; assumption.
Qed.

Lemma write_accent_colorset_document_witness :
  exists w',
    write_accent_colorset ["DispatcherPVR"; "Assets.xcassets"]%string
      (Some (0.0005, 0.0625, 0.263)%Q) empty_world = Ok tt w' /\
    w_files w' !! ["DispatcherPVR"; "Assets.xcassets";
                   "AccentColor.colorset"; "Contents.json"]%string =
      Some (TextFile (expected_colorset "0.001" "0.062" "0.263")) /\
    component_round_trips 0.263.
Proof.
  destruct (write_accent_colorset_document
              ["DispatcherPVR"; "Assets.xcassets"]%string empty_world
              0.0005 0.0625 0.263
              ltac:(discriminate) ltac:(discriminate) ltac:(discriminate)
              ltac:(discriminate) ltac:(discriminate) ltac:(discriminate))
    as [_ (w' & H1 & H2 & _ & _ & _ & _ & _ & _ & _ & H8)].
  exists w'. split; [exact H1|]. split; [exact H2 | exact H8].
Defined.

(** C6.  When the reference extent [int(200 * s)] is at most 32 the
    radius of the REC dot and the radius of the knobs are their reduced
    floors [max(int(2 * s), 1)] and [max(int(3 * s), 1)], so at least one
    pixel. *)
Theorem crt_small_radii_floor (s : Q) :
  py_int (200 * s) <= 32 ->
  crt_rec_r s = Z.max (py_int (2 * s)) 1 /\
  crt_kr s = Z.max (py_int (3 * s)) 1 /\
  1 <= crt_rec_r s /\ 1 <= crt_kr s.
Proof.
  intros Hs. unfold crt_rec_r, crt_kr.
  replace (py_int (200 * s) <=? 32) with true by lia.
  repeat split; lia.
Qed.

Lemma crt_small_radii_floor_witness :
  py_int (200 * (16 # 200)) <= 32 /\
  1 <= crt_rec_r (16 # 200) /\ 1 <= crt_kr (16 # 200).
Proof.
  assert (H : py_int (200 * (16 # 200)) <= 32) by (vm_compute; discriminate).
  split; [exact H|]. apply (crt_small_radii_floor (16 # 200) H).
Defined.

(** C8.  A positional argument other than ["nexuspvr"], ["dispatcherpvr"]
    and ["all"] ends the process with status 2 and the usage error of an
    invalid choice, the world being left as it was; and the arguments the
    parser accepts are exactly those three. *)
Theorem main_rejects_invalid_brand `{Pillow} (script : path) (arg : string)
    (w : world) :
  arg <> "nexuspvr"%string -> arg <> "dispatcherpvr"%string ->
  arg <> "all"%string ->
  let o := main script arg w in
  exit_code o = 2 /\ exit_code o <> 0 /\
  usage o = Some (InvalidChoice "brand" arg brand_choices) /\
  out_world o = w /\
  (forall a : string,
     (exists v, parse_args a = inr v) <->
     a = "nexuspvr"%string \/ a = "dispatcherpvr"%string \/ a = "all"%string).
Proof.
  intros H1 H2 H3.
  assert (Hchoice : forall a : string,
    existsb (String.eqb a) brand_choices = true <->
    a = "nexuspvr"%string \/ a = "dispatcherpvr"%string \/ a = "all"%string).
  { intros a. unfold brand_choices. cbn [existsb].
    rewrite !orb_true_iff, !String.eqb_eq. intuition discriminate. }
  assert (Hrej : existsb (String.eqb arg) brand_choices = false).
  { destruct (existsb (String.eqb arg) brand_choices) eqn:E; [|reflexivity].
    apply Hchoice in E. intuition congruence. }
  cbv zeta.
  assert (Hmain : main script arg w =
    {| exit_code := 2;
       usage := Some (InvalidChoice "brand" arg brand_choices);
       uncaught := None; out_world := w |}).
  { unfold main, parse_args. rewrite Hrej. reflexivity. }
  rewrite Hmain. cbn [exit_code usage out_world].
  repeat (split; [easy|]).
  intros a. rewrite <- Hchoice. unfold parse_args.
  destruct (existsb (String.eqb a) brand_choices); split.
  - reflexivity.
  - intros _. eexists. reflexivity.
  - intros [v Hv]. discriminate.
  - discriminate.
Qed.

Lemma main_rejects_invalid_brand_witness :
  exit_code (@main plain_pillow ["repo"; "scripts"; "generate_assets.py"]%string
               "vhs" empty_world) = 2.
Proof.
  apply (@main_rejects_invalid_brand plain_pillow
           ["repo"; "scripts"; "generate_assets.py"]%string "vhs"%string
           empty_world); discriminate.
Defined.

(** ** The manifest of a run *)

Lemma fmap_cons_eq {A B : Type} (f : A -> B) (x : A) (l : list B)
    (xs : list A) :
  l = f <$> xs -> f x :: l = f <$> (x :: xs).
Proof. intros ->. reflexivity. Qed.

Lemma manifest_paths_NoDup `{Pillow} (script : path) (is_crt : bool)
    (b : brand) :
  NoDup ((manifest script is_crt b).*1).
Proof.
  set (assets := dirname (dirname script) ++ assets_dir b).
  assert (Hs : exists suffixes : list path,
    (manifest script is_crt b).*1 = (app assets) <$> suffixes /\
    NoDup suffixes).
  { eexists. split.
    - unfold manifest, tvos_manifest, layer, launch_sizes, icon_sizes.
      cbv zeta. fold assets.
      cbn [map app fmap list_fmap fst snd].
      rewrite <- !app_assoc. cbn [app].
      repeat apply (fmap_cons_eq (app assets)).
      exact (eq_refl : [] = app assets <$> []).
    - apply (bool_decide_unpack _). vm_compute. exact I. }
  destruct Hs as (suffixes & -> & Hnd).
  apply NoDup_fmap_2; [|exact Hnd].
  intros x y Hxy. apply app_inv_head in Hxy. exact Hxy.
Qed.

Lemma manifest_length `{Pillow} (script : path) (is_crt : bool) (b : brand) :
  length (manifest script is_crt b) = 32%nat.
Proof. reflexivity. Qed.

Lemma manifest_contents `{Pillow} (script script' : path) (is_crt : bool)
    (b : brand) :
  (manifest script' is_crt b).*2 = (manifest script is_crt b).*2.
Proof. reflexivity. Qed.

Lemma generate_outcome `{Pillow} (script : path) (brand_key : string)
    (b : brand) :
  dict_get BRANDS brand_key = Some b ->
  let out := manifest script (is_crt_key brand_key) b in
  exists dirs : list path, forall w : world,
    exists w' : world,
      generate script brand_key w = Ok tt w' /\
      w_dirs w' = w_dirs w ∪ list_to_set dirs /\
      w_files w' = write_all out (w_files w) /\
      w_trace w' = w_trace w ++ composer_calls (is_crt_key brand_key) /\
      (forall p f, (p, f) ∈ out -> w_files w' !! p = Some f) /\
      (forall p, p ∉ out.*1 -> w_files w' !! p = w_files w !! p).
Proof.
  intros Hb out. destruct (generate_runs script brand_key b Hb) as [dirs Hrun].
  exists dirs. intros w. eexists. split; [apply Hrun|].
  unfold apply_effect. cbn [w_dirs w_files w_trace e_dirs e_files e_trace].
  fold out. repeat (split; [reflexivity|]). split.
  - intros p f Hin. rewrite write_all_lookup.
    rewrite (last_write_NoDup out p f); [reflexivity | | exact Hin].
    apply manifest_paths_NoDup.
  - intros p Hp. rewrite write_all_lookup, last_write_None by exact Hp.
    reflexivity.
Qed.

Lemma saved_RGB (force_rgb : bool) (img : image) :
  im_mode img = RGB -> saved force_rgb img = img.
Proof.
  intros Hm. unfold saved. rewrite Hm. destruct force_rgb; reflexivity.
Qed.

(** ** The VHS theme does fail without its source image *)

Lemma _load_vhs_source_missing (script : path) (w : world) :
  w_files w !! VHS_SOURCE script = None ->
  exists w', _load_vhs_source script w =
             Raise (FileNotFoundError (VHS_SOURCE script)) w'.
Proof.
  intros Hnone. unfold _load_vhs_source, Image_open, mbind, script_bind.
  rewrite Hnone. eexists. reflexivity.
Qed.

Lemma create_vhs_icon_missing `{Pillow} (script : path) (size : Z)
    (b : brand) (w : world) :
  w_files w !! VHS_SOURCE script = None ->
  exists w', create_vhs_icon script size b w =
             Raise (FileNotFoundError (VHS_SOURCE script)) w'.
Proof.
  intros Hnone.
  unfold create_vhs_icon, _place_vhs_on_canvas, _load_vhs_source, Image_open,
    mbind, script_bind.
  rewrite Hnone. eexists. reflexivity.
Qed.

(** ** Claims on whole runs *)

(** C1, amended.  A run for ["nexuspvr"] writes [AppIcon-1024.png] as the
    image [create_app_icon(1024, brand)], an opaque RGB image of 1024 by
    1024 pixels; the centre pixel of its gradient background is exactly
    the gradient centre colour [(42, 107, 153)], and in the finished icon
    that pixel lies under the play triangle and is white. *)
Theorem nexuspvr_app_icon `{Pillow} (script : path) (w : world) :
  exists (w' : world) (icon : image),
    generate script "nexuspvr" w = Ok tt w' /\
    w_files w' !! (((dirname (dirname script) ++ assets_dir nexuspvr) ++
                    ["AppIcon.appiconset"%string]) ++
                   ["AppIcon-1024.png"%string]) = Some (ImageFile icon) /\
    icon = create_app_icon 1024 nexuspvr /\
    im_mode icon = RGB /\ im_width icon = 1024 /\ im_height icon = 1024 /\
    getpixel (create_radial_gradient 1024 1024 (gradient_center nexuspvr)
                (gradient_edge nexuspvr)) 512 512 = Some [42; 107; 153] /\
    getpixel icon 512 512 = Some [255; 255; 255].
Proof.
  destruct (generate_outcome script "nexuspvr" nexuspvr eq_refl)
    as (dirs & Hgen).
  destruct (Hgen w) as (w' & Hrun & _ & _ & _ & Hin & _).
  exists w', (create_app_icon 1024 nexuspvr).
  split; [exact Hrun|]. split.
  - apply Hin. unfold manifest. cbv zeta.
    apply elem_of_app. left. unfold icon_sizes. cbn [map fst snd].
    rewrite saved_RGB by reflexivity. apply list_elem_of_here.
  - do 4 (split; [reflexivity|]). split.
    + apply (gradient_center_pixel 1024 1024 (gradient_center nexuspvr)
               (gradient_edge nexuspvr)); reflexivity.
    + apply create_app_icon_nexuspvr_center.
Qed.

(** C2, as stated, fails for ["dispatcherpvr"]: its launch background is
    filled with [CRT_BG], not with its configured launch-background
    colour. *)
Lemma launch_background_counterexample :
  ~ (forall (brand_key : string) (b : brand),
       dict_get BRANDS brand_key = Some b ->
       forall x y : Z, 0 <= x < 120 -> 0 <= y < 120 ->
       getpixel (Image_new RGB 120 120
                   (Some (launch_bg_fill
                            (String.eqb brand_key "dispatcherpvr") b))) x y =
         Some (scale255 (launch_bg_rgb b))).
Proof.
  intros Hclaim.
  specialize (Hclaim "dispatcherpvr"%string dispatcherpvr eq_refl 0 0
                ltac:(lia) ltac:(lia)).
  vm_compute in Hclaim. discriminate.
Qed.

(** C2, amended.  For each brand a run writes the three launch-background
    images as RGB squares of 120, 240 and 360 pixels in which every pixel
    is one colour: for ["nexuspvr"] the configured launch-background colour
    scaled to 0-255 with truncation, [(15, 15, 15)]; for ["dispatcherpvr"],
    the brand of the CRT theme, the constant [CRT_BG = (14, 31, 21)]. *)
Theorem launch_background_fill `{Pillow} (script : path) (w : world) :
  Forall (fun kb : string * brand =>
    let fill := if is_crt_key kb.1 then tuple3 CRT_BG
                else scale255 (launch_bg_rgb kb.2) in
    exists w' : world,
      generate script kb.1 w = Ok tt w' /\
      forall fn sz, (fn, sz) ∈ launch_sizes "LaunchBG" ->
        exists img : image,
          w_files w' !! (((dirname (dirname script) ++ assets_dir kb.2) ++
                          ["LaunchBG.imageset"%string]) ++ [fn])
            = Some (ImageFile img) /\
          im_mode img = RGB /\ im_width img = sz /\ im_height img = sz /\
          forall x y, 0 <= x < sz -> 0 <= y < sz ->
            getpixel img x y = Some fill)
    BRANDS /\
  is_crt_key "nexuspvr" = false /\
  scale255 (launch_bg_rgb nexuspvr) = [15; 15; 15] /\
  is_crt_key "dispatcherpvr" = true /\
  tuple3 CRT_BG = [14; 31; 21].
Proof.
  split; [|repeat split].
  assert (Hgen : forall (brand_key : string) (b : brand),
    dict_get BRANDS brand_key = Some b ->
    exists w' : world,
      generate script brand_key w = Ok tt w' /\
      forall fn sz, (fn, sz) ∈ launch_sizes "LaunchBG" ->
        exists img : image,
          w_files w' !! (((dirname (dirname script) ++ assets_dir b) ++
                          ["LaunchBG.imageset"%string]) ++ [fn])
            = Some (ImageFile img) /\
          im_mode img = RGB /\ im_width img = sz /\ im_height img = sz /\
          forall x y, 0 <= x < sz -> 0 <= y < sz ->
            getpixel img x y =
              Some (if is_crt_key brand_key then tuple3 CRT_BG
                    else scale255 (launch_bg_rgb b))).
  { intros brand_key b Hb.
    destruct (generate_outcome script brand_key b Hb) as (dirs & Hgen).
    destruct (Hgen w) as (w' & Hrun & _ & _ & _ & Hin & _).
    exists w'. split; [exact Hrun|]. intros fn sz Hsz.
    exists (Image_new RGB sz sz
              (Some (launch_bg_fill (is_crt_key brand_key) b))).
    split.
    - apply Hin. unfold manifest. cbv zeta.
      apply elem_of_app. right. apply elem_of_app. right.
      apply elem_of_app. left.
      rewrite <- (saved_RGB true (Image_new RGB sz sz _)) by reflexivity.
      apply (list_elem_of_fmap_2
               (fun e : string * Z =>
                  (((dirname (dirname script) ++ assets_dir b) ++
                    ["LaunchBG.imageset"%string]) ++ [e.1],
                   ImageFile (saved true (Image_new RGB e.2 e.2
                     (Some (launch_bg_fill (is_crt_key brand_key) b))))))
               (launch_sizes "LaunchBG") (fn, sz)).
      exact Hsz.
    - repeat (split; [reflexivity|]). intros x y Hx Hy.
      rewrite getpixel_inside by (cbn [Image_new im_width im_height]; lia).
      cbn [Image_new im_px]. f_equal. unfold launch_bg_fill.
      destruct (is_crt_key brand_key); [reflexivity|].
      destruct (launch_bg_rgb b) as [[r g] bl]. reflexivity. }
  unfold BRANDS. repeat apply List.Forall_cons; try apply List.Forall_nil;
    cbv beta zeta; apply Hgen; reflexivity.
Qed.

(** C7.  For each brand a run succeeds from every world and writes the 32
    files of the manifest, whose contents are a function of the brand
    alone: two runs from any two worlds leave the same content at every
    manifest path and touch no other path, and a second run over the
    result of the first changes neither a file nor a directory. *)
Theorem generate_deterministic `{Pillow} (script : path) :
  Forall (fun kb : string * brand =>
    let out := manifest script (is_crt_key kb.1) kb.2 in
    length out = 32%nat /\ NoDup (out.*1) /\
    (forall script' : path,
       (manifest script' (is_crt_key kb.1) kb.2).*2 = out.*2) /\
    forall w1 w2 : world,
    exists w1' w2' w1'' : world,
      generate script kb.1 w1 = Ok tt w1' /\
      generate script kb.1 w2 = Ok tt w2' /\
      (forall p f, (p, f) ∈ out ->
         w_files w1' !! p = Some f /\ w_files w2' !! p = Some f) /\
      (forall p, p ∉ out.*1 -> w_files w1' !! p = w_files w1 !! p) /\
      generate script kb.1 w1' = Ok tt w1'' /\
      w_files w1'' = w_files w1' /\ w_dirs w1'' = w_dirs w1')
    BRANDS.
Proof.
  assert (Hgen : forall (brand_key : string) (b : brand),
    dict_get BRANDS brand_key = Some b ->
    let out := manifest script (is_crt_key brand_key) b in
    length out = 32%nat /\ NoDup (out.*1) /\
    (forall script' : path,
       (manifest script' (is_crt_key brand_key) b).*2 = out.*2) /\
    forall w1 w2 : world,
    exists w1' w2' w1'' : world,
      generate script brand_key w1 = Ok tt w1' /\
      generate script brand_key w2 = Ok tt w2' /\
      (forall p f, (p, f) ∈ out ->
         w_files w1' !! p = Some f /\ w_files w2' !! p = Some f) /\
      (forall p, p ∉ out.*1 -> w_files w1' !! p = w_files w1 !! p) /\
      generate script brand_key w1' = Ok tt w1'' /\
      w_files w1'' = w_files w1' /\ w_dirs w1'' = w_dirs w1').
  { intros brand_key b Hb out.
    split; [apply manifest_length|].
    split; [apply manifest_paths_NoDup|].
    split; [intros script'; apply manifest_contents|].
    destruct (generate_outcome script brand_key b Hb) as (dirs & Hgen).
    intros w1 w2.
    destruct (Hgen w1) as (w1' & Hr1 & Hd1 & Hf1 & _ & Hin1 & Hout1).
    destruct (Hgen w2) as (w2' & Hr2 & _ & _ & _ & Hin2 & _).
    destruct (Hgen w1') as (w1'' & Hr3 & Hd3 & Hf3 & _).
    exists w1', w2', w1''. split; [exact Hr1|]. split; [exact Hr2|].
    split; [intros p f Hp; split; auto|]. split; [exact Hout1|].
    split; [exact Hr3|]. split.
    - rewrite Hf3, Hf1. apply write_all_twice.
    - rewrite Hd3, Hd1, <- (assoc_L (∪)), (idemp_L (∪)). reflexivity. }
  unfold BRANDS. apply List.Forall_cons;
    [exact (Hgen "nexuspvr"%string nexuspvr eq_refl)|].
  apply List.Forall_cons;
    [exact (Hgen "dispatcherpvr"%string dispatcherpvr eq_refl)|].
  apply List.Forall_nil.
Qed.

(** C10.  For each brand a run succeeds from every world, whether the VHS
    source image is present, unreadable or missing; the events it records
    are calls of composers of the brand's own theme, gradient or CRT,
    none of them a VHS composer, and it opens no file. *)
Theorem generate_never_uses_vhs `{Pillow} (script : path) :
  Forall (fun kb : string * brand =>
    forall (w : world) (vhs : option file),
    exists (w' : world) (events : list event),
      generate script kb.1 (with_vhs_source script vhs w) = Ok tt w' /\
      w_trace w' = w_trace w ++ events /\
      forallb (theme_event (is_crt_key kb.1)) events = true /\
      Forall vhs_free events /\
      Opened (VHS_SOURCE script) ∉ events)
    BRANDS.
Proof.
  assert (Hgen : forall (brand_key : string) (b : brand),
    dict_get BRANDS brand_key = Some b ->
    forall (w : world) (vhs : option file),
    exists (w' : world) (events : list event),
      generate script brand_key (with_vhs_source script vhs w) = Ok tt w' /\
      w_trace w' = w_trace w ++ events /\
      forallb (theme_event (is_crt_key brand_key)) events = true /\
      Forall vhs_free events /\
      Opened (VHS_SOURCE script) ∉ events).
  { intros brand_key b Hb w vhs.
    destruct (generate_outcome script brand_key b Hb) as (dirs & Hgen).
    destruct (Hgen (with_vhs_source script vhs w))
      as (w' & Hrun & _ & _ & Ht & _).
    exists w', (composer_calls (is_crt_key brand_key)).
    split; [exact Hrun|]. split; [exact Ht|].
    destruct (is_crt_key brand_key).
    - split; [reflexivity|]. split.
      + unfold composer_calls, tvos_calls. cbn [map app fst snd].
        repeat (apply List.Forall_cons; [reflexivity|]). apply List.Forall_nil.
      + intros Hin. unfold composer_calls, tvos_calls in Hin.
        cbn [map app fst snd] in Hin.
        repeat (apply elem_of_cons in Hin as [Hin|Hin]; [discriminate|]).
        apply elem_of_nil in Hin. exact Hin.
    - split; [reflexivity|]. split.
      + unfold composer_calls, tvos_calls. cbn [map app fst snd].
        repeat (apply List.Forall_cons; [reflexivity|]). apply List.Forall_nil.
      + intros Hin. unfold composer_calls, tvos_calls in Hin.
        cbn [map app fst snd] in Hin.
        repeat (apply elem_of_cons in Hin as [Hin|Hin]; [discriminate|]).
        apply elem_of_nil in Hin. exact Hin. }
  unfold BRANDS. apply List.Forall_cons;
    [exact (Hgen "nexuspvr"%string nexuspvr eq_refl)|].
  apply List.Forall_cons;
    [exact (Hgen "dispatcherpvr"%string dispatcherpvr eq_refl)|].
  apply List.Forall_nil.
Qed.

(** ** More on the radial gradient *)

Lemma gradient_ratio_mirror_x (w h x y : Z) :
  gradient_ratio w h (w - x) y = gradient_ratio w h x y.
Proof.
  unfold gradient_ratio. rewrite minus_IZR.
  replace ((IZR w - IZR x - IZR w / 2) ^ 2)%R
    with ((IZR x - IZR w / 2) ^ 2)%R by field.
  reflexivity.
Qed.

Lemma gradient_ratio_mirror_y (w h x y : Z) :
  gradient_ratio w h x (h - y) = gradient_ratio w h x y.
Proof.
  unfold gradient_ratio. rewrite minus_IZR.
  replace ((IZR h - IZR y - IZR h / 2) ^ 2)%R
    with ((IZR y - IZR h / 2) ^ 2)%R by field.
  reflexivity.
Qed.

Lemma gradient_pixel_ratio (w h : Z) (cc ec : rgb) (x y x' y' : Z) :
  gradient_ratio w h x' y' = gradient_ratio w h x y ->
  gradient_pixel w h cc ec x' y' = gradient_pixel w h cc ec x y.
Proof.
  intros Hr. destruct cc as [[c0 c1] c2], ec as [[e0 e1] e2].
  unfold gradient_pixel. rewrite Hr. reflexivity.
Qed.

Lemma gradient_dist_sq (w h x y : Z) :
  ((IZR x - IZR w / 2) ^ 2 + (IZR y - IZR h / 2) ^ 2 =
   IZR ((2 * x - w) ^ 2 + (2 * y - h) ^ 2) / 4)%R.
Proof.
  rewrite plus_IZR. change 2 with (Z.of_nat 2).
  rewrite <- !pow_IZR. rewrite !minus_IZR, !mult_IZR.
  change (IZR (Z.of_nat 2)) with 2%R. field.
Qed.

Lemma gradient_ratio_radial (w h x1 y1 x2 y2 : Z) :
  (2 * x1 - w) ^ 2 + (2 * y1 - h) ^ 2 = (2 * x2 - w) ^ 2 + (2 * y2 - h) ^ 2 ->
  gradient_ratio w h x1 y1 = gradient_ratio w h x2 y2.
Proof.
  intros Hd. unfold gradient_ratio. rewrite !gradient_dist_sq, Hd.
  reflexivity.
Qed.

(** X2.  The gradient is radial: two pixels at the same distance from the
    canvas centre have the same colour.  In particular it is symmetric
    about both centre lines and about the centre, row and column 0 apart,
    which have no mirror image inside the raster. *)
Theorem create_radial_gradient_radial (w h : Z) (cc ec : rgb)
    (x1 y1 x2 y2 : Z) :
  0 <= x1 < w -> 0 <= y1 < h -> 0 <= x2 < w -> 0 <= y2 < h ->
  (2 * x1 - w) ^ 2 + (2 * y1 - h) ^ 2 = (2 * x2 - w) ^ 2 + (2 * y2 - h) ^ 2 ->
  let img := create_radial_gradient w h cc ec in
  getpixel img x1 y1 = getpixel img x2 y2 /\
  (0 < x1 -> getpixel img (w - x1) y1 = getpixel img x1 y1) /\
  (0 < y1 -> getpixel img x1 (h - y1) = getpixel img x1 y1) /\
  (0 < x1 -> 0 < y1 -> getpixel img (w - x1) (h - y1) = getpixel img x1 y1).
Proof.
  intros Hx1 Hy1 Hx2 Hy2 Hd img. subst img.
  split; [|repeat split; intros].
  - rewrite !create_radial_gradient_getpixel by assumption.
    f_equal. apply gradient_pixel_ratio, gradient_ratio_radial. exact Hd.
  - rewrite !create_radial_gradient_getpixel by lia.
    f_equal. apply gradient_pixel_ratio, gradient_ratio_mirror_x.
  - rewrite !create_radial_gradient_getpixel by lia.
    f_equal. apply gradient_pixel_ratio, gradient_ratio_mirror_y.
  - rewrite !create_radial_gradient_getpixel by lia.
    f_equal. apply gradient_pixel_ratio.
    rewrite gradient_ratio_mirror_x. apply gradient_ratio_mirror_y.
Qed.

Lemma create_radial_gradient_radial_witness :
  getpixel (create_radial_gradient 16 16 (42, 107, 153) (15, 35, 60)) 3 5 =
  getpixel (create_radial_gradient 16 16 (42, 107, 153) (15, 35, 60)) 5 13.
Proof.
  apply (create_radial_gradient_radial 16 16 (42, 107, 153) (15, 35, 60)
           3 5 5 13); lia.
Defined.

Lemma float_pow_mono (a b y : R) :
  (0 <= y)%R -> (a <= b)%R -> (float_pow a y <= float_pow b y)%R.
Proof.
  intros Hy Hab. unfold float_pow.
  destruct (Rle_dec a 0), (Rle_dec b 0); try lra.
  - left. apply exp_pos.
  - apply Rle_Rpower_l; lra.
Qed.

Lemma gradient_ratio_mono (w h x1 y1 x2 y2 : Z) :
  0 < w ->
  (2 * x1 - w) ^ 2 + (2 * y1 - h) ^ 2 <= (2 * x2 - w) ^ 2 + (2 * y2 - h) ^ 2 ->
  (gradient_ratio w h x1 y1 <= gradient_ratio w h x2 y2)%R.
Proof.
  intros Hw Hd. unfold gradient_ratio.
  pose proof (gradient_max_dist_pos w h Hw) as Hm.
  apply float_pow_mono; [lra|].
  rewrite !gradient_dist_sq.
  set (m := sqrt ((IZR w / 2) ^ 2 + (IZR h / 2) ^ 2)) in *.
  assert (Hs : (sqrt (IZR ((2 * x1 - w) ^ 2 + (2 * y1 - h) ^ 2) / 4) / m <=
                sqrt (IZR ((2 * x2 - w) ^ 2 + (2 * y2 - h) ^ 2) / 4) / m)%R).
  { apply Rmult_le_compat_r; [left; apply Rinv_0_lt_compat; exact Hm|].
    apply sqrt_le_1_alt. apply IZR_le in Hd. lra. }
  unfold Rmin. repeat destruct (Rle_dec _ _); lra.
Qed.

Lemma py_int_R_mono (r1 r2 : R) :
  (0 <= r1)%R -> (r1 <= r2)%R -> py_int_R r1 <= py_int_R r2.
Proof.
  intros H0 H12. unfold py_int_R.
  destruct (Rle_dec 0 r1), (Rle_dec 0 r2); try lra.
  destruct (Int_part_bounds r1) as [Ha _].
  destruct (Int_part_bounds r2) as [_ Hb].
  cut (Int_part r1 < Int_part r2 + 1); [lia|].
  apply lt_IZR. rewrite plus_IZR. lra.
Qed.

Lemma gradient_channel_toward (c e : Z) (t1 t2 : R) :
  0 <= c -> 0 <= e -> (0 <= t1)%R -> (t1 <= t2)%R -> (t2 <= 1)%R ->
  (c <= e -> gradient_channel c e t1 <= gradient_channel c e t2 <= e) /\
  (e <= c -> e <= gradient_channel c e t2 <= gradient_channel c e t1).
Proof.
  intros Hc He H0 H12 H1.
  pose proof (gradient_channel_between c e t2 ltac:(lra)) as Hb.
  apply IZR_le in Hc, He. split; intros Hce.
  - split; [|lia]. apply IZR_le in Hce. unfold gradient_channel.
    apply py_int_R_mono; nra.
  - split; [lia|]. apply IZR_le in Hce. unfold gradient_channel.
    apply py_int_R_mono; nra.
Qed.

(** X3.  The gradient falls off monotonically: of two pixels, the one
    farther from the canvas centre has every channel between the channel
    of the nearer one and the channel of the edge colour. *)
Theorem create_radial_gradient_monotone (w h : Z) (cc ec : rgb)
    (x1 y1 x2 y2 : Z) :
  valid_rgb cc -> valid_rgb ec ->
  0 <= x1 < w -> 0 <= y1 < h -> 0 <= x2 < w -> 0 <= y2 < h ->
  (2 * x1 - w) ^ 2 + (2 * y1 - h) ^ 2 <= (2 * x2 - w) ^ 2 + (2 * y2 - h) ^ 2 ->
  let img := create_radial_gradient w h cc ec in
  exists p1 p2,
    getpixel img x1 y1 = Some p1 /\ getpixel img x2 y2 = Some p2 /\
    toward_edge p1 p2 cc ec.
Proof.
  intros Hcc Hec Hx1 Hy1 Hx2 Hy2 Hd img. subst img.
  exists (gradient_pixel w h cc ec x1 y1), (gradient_pixel w h cc ec x2 y2).
  rewrite !create_radial_gradient_getpixel by assumption.
  split; [reflexivity|]. split; [reflexivity|].
  pose proof (gradient_ratio_mono w h x1 y1 x2 y2 ltac:(lia) Hd) as Hr.
  pose proof (gradient_ratio_unit w h x1 y1 ltac:(lia)) as [Ha _].
  pose proof (gradient_ratio_unit w h x2 y2 ltac:(lia)) as [_ Hb].
  destruct cc as [[c0 c1] c2], ec as [[e0 e1] e2].
  destruct Hcc as (? & ? & ?), Hec as (? & ? & ?).
  unfold gradient_pixel, toward_edge.
  destruct (gradient_channel_toward c0 e0 _ _ ltac:(lia) ltac:(lia) Ha Hr Hb)
    as [Hr1 Hr2].
  destruct (gradient_channel_toward c1 e1 _ _ ltac:(lia) ltac:(lia) Ha Hr Hb)
    as [Hg1 Hg2].
  destruct (gradient_channel_toward c2 e2 _ _ ltac:(lia) ltac:(lia) Ha Hr Hb)
    as [Hb1 Hb2].
  repeat (split; [assumption|]). assumption.
Qed.

Lemma create_radial_gradient_monotone_witness :
  exists p1 p2,
    getpixel (create_radial_gradient 16 16 (42, 107, 153) (15, 35, 60)) 8 8
      = Some p1 /\
    getpixel (create_radial_gradient 16 16 (42, 107, 153) (15, 35, 60)) 2 3
      = Some p2 /\
    toward_edge p1 p2 (42, 107, 153) (15, 35, 60).
Proof.
  apply (create_radial_gradient_monotone 16 16 (42, 107, 153) (15, 35, 60)
           8 8 2 3); cbn; lia.
Defined.

(** ** The colours of the icon and of the launch logo *)

Lemma forall_below (P : Z -> bool) (n : nat) :
  forallb P (map Z.of_nat (seq 0 n)) = true ->
  forall a, 0 <= a < Z.of_nat n -> P a = true.
Proof.
  intros Hall a Ha. rewrite forallb_forall in Hall. apply Hall.
  apply in_map_iff. exists (Z.to_nat a). split; [lia|]. apply in_seq. lia.
Qed.

Lemma muldiv255_0_r (a : Z) : muldiv255 a 0 = 0.
Proof. unfold muldiv255. rewrite Z.mul_0_r. reflexivity. Qed.

Lemma muldiv255_255 (a : Z) : 0 <= a <= 255 -> muldiv255 a 255 = a.
Proof.
  intros Ha. apply Z.eqb_eq.
  apply (forall_below (fun a => muldiv255 a 255 =? a) 256);
    [vm_compute; reflexivity | lia].
Qed.

Lemma blend8_opaque (d s : Z) : 0 <= s <= 255 -> blend8 255 d s = s.
Proof.
  intros Hs. unfold blend8. change (255 - 255) with 0.
  rewrite muldiv255_0_r, muldiv255_255 by exact Hs. reflexivity.
Qed.

Lemma blend8_clear (d s : Z) : 0 <= d <= 255 -> blend8 0 d s = d.
Proof.
  intros Hd. unfold blend8. change (255 - 0) with 255.
  rewrite muldiv255_0_r, muldiv255_255 by exact Hd. lia.
Qed.

Lemma composite_channel_opaque (s d : Z) :
  0 <= s <= 255 ->
  Z.shiftr (shift_for_div255 (s * 32640 + d * 0 + 128 * 128)) 7 = s.
Proof.
  intros Hs. rewrite Z.mul_0_r, Z.add_0_r. apply Z.eqb_eq.
  apply (forall_below
           (fun s => Z.shiftr (shift_for_div255 (s * 32640 + 128 * 128)) 7
                     =? s) 256);
    [vm_compute; reflexivity | lia].
Qed.

Lemma composite_pixel_opaque (dr dg db da r g b : Z) :
  0 <= r <= 255 -> 0 <= g <= 255 -> 0 <= b <= 255 ->
  composite_pixel [dr; dg; db; da] [r; g; b; 255] = [r; g; b; 255].
Proof.
  intros Hr Hg Hb. unfold composite_pixel.
  change (255 =? 0) with false. cbv iota.
  replace (da * (255 - 255)) with 0 by lia.
  change (255 * 255 * 255 * 128 / (255 * 255 + 0)) with 32640.
  change (255 * 128 - 32640) with 0.
  rewrite !composite_channel_opaque by assumption. reflexivity.
Qed.

Lemma gradient_pixel_bands (w h : Z) (cc ec : rgb) (x y : Z) :
  0 < w -> valid_rgb cc -> valid_rgb ec ->
  exists r g b,
    gradient_pixel w h cc ec x y = [r; g; b] /\
    0 <= r <= 255 /\ 0 <= g <= 255 /\ 0 <= b <= 255.
Proof.
  intros Hw Hcc Hec. destruct cc as [[c0 c1] c2], ec as [[e0 e1] e2].
  destruct Hcc as (? & ? & ?), Hec as (? & ? & ?).
  pose proof (gradient_ratio_unit w h x y Hw) as Ht.
  pose proof (gradient_channel_between c0 e0 _ Ht).
  pose proof (gradient_channel_between c1 e1 _ Ht).
  pose proof (gradient_channel_between c2 e2 _ Ht).
  unfold gradient_pixel. do 3 eexists. split; [reflexivity|]. lia.
Qed.

Lemma inside_true (size x y : Z) :
  0 <= x < size -> 0 <= y < size ->
  (0 <=? x) && (x <? size) && (0 <=? y) && (y <? size) = true.
Proof. intros Hx Hy. repeat (apply andb_true_intro; split); lia. Qed.

Lemma gradient_raster (size : Z) (cc ec : rgb) :
  0 <= size ->
  exists px : Z -> Z -> pixel,
    create_radial_gradient size size cc ec =
      {| im_mode := RGB; im_width := size; im_height := size; im_px := px |}
    /\ forall x y, 0 <= x < size -> 0 <= y < size ->
         px x y = gradient_pixel size size cc ec x y.
Proof.
  intros Hs.
  destruct (create_radial_gradient_frame size size cc ec Hs Hs)
    as (Hm & Hw & Hh).
  pose proof (create_radial_gradient_getpixel size size cc ec) as Hget.
  destruct (create_radial_gradient size size cc ec) as [m w h px].
  cbn in Hm, Hw, Hh. subst m w h. exists px. split; [reflexivity|].
  intros x y Hx Hy. specialize (Hget x y Hx Hy).
  rewrite getpixel_inside in Hget by assumption.
  cbn [im_px] in Hget. congruence.
Qed.

(** A filled shape stores its ink or leaves the pixel as it was. *)
Lemma paint_cases (cover : Z -> Z -> bool) (c : list Z) (img : image)
    (x y : Z) :
  im_px (paint cover c img) x y = ink (im_mode img) c \/
  im_px (paint cover c img) x y = im_px img x y.
Proof. cbn. destruct (cover x y); auto. Qed.

Lemma foreground_cases (img : image) (cx cy s : Q) (dot : rgb) (x y : Z) :
  let fg := draw_recording_dot (draw_play_button img cx cy s white)
                               cx cy s dot in
  im_px fg x y = ink (im_mode img) (tuple3 dot ++ [255]) \/
  im_px fg x y = ink (im_mode img) white \/
  im_px fg x y = im_px img x y.
Proof.
  cbv zeta. unfold draw_recording_dot, draw_ellipse, draw_ellipse_Z.
  destruct (paint_cases
              (in_ellipse (py_int (cx + 55 * s - 12 * s))
                          (py_int (cy - 45 * s - 12 * s))
                          (py_int (cx + 55 * s + 12 * s))
                          (py_int (cy - 45 * s + 12 * s)))
              (tuple3 dot ++ [255]) (draw_play_button img cx cy s white) x y)
    as [H|H]; rewrite H; [left; reflexivity|].
  right. unfold draw_play_button, draw_polygon, draw_polygon_Z.
  match goal with
  | |- context [paint ?cover ?c ?i] =>
      destruct (paint_cases cover c i x y) as [H'|H']; rewrite H'
  end; [left; reflexivity | right; reflexivity].
Qed.

Lemma icon_mask_cases (size radius : Z) (x y : Z) :
  let mask := draw_rounded_rectangle (Image_new L size size (Some [0]))
                (0, 0, size, size) radius [255] in
  im_px mask x y = [255] \/ im_px mask x y = [0].
Proof.
  cbv zeta. unfold draw_rounded_rectangle.
  match goal with
  | |- context [paint ?cover ?c ?i] =>
      destruct (paint_cases cover c i x y) as [H|H]; rewrite H
  end; [left | right]; reflexivity.
Qed.

(** X4.  Every pixel of the app icon of the gradient theme is opaque and
    is one of four colours: the recording-dot colour, white, the pixel of
    the radial gradient at the same place, or the gradient edge colour.
    The mask and the foreground are never blended with what lies under
    them. *)
Theorem create_app_icon_palette (size : Z) (b : brand) (x y : Z) :
  valid_rgb (gradient_center b) -> valid_rgb (gradient_edge b) ->
  valid_rgb (recording_dot b) ->
  0 <= x < size -> 0 <= y < size ->
  let icon := create_app_icon size b in
  let bg := create_radial_gradient size size (gradient_center b)
                                   (gradient_edge b) in
  im_mode icon = RGB /\
  exists p : pixel,
    getpixel icon x y = Some p /\
    (p = tuple3 (recording_dot b) \/ p = [255; 255; 255] \/
     getpixel bg x y = Some p \/ p = tuple3 (gradient_edge b)).
Proof.
  intros Hgc Hge Hdot Hx Hy icon bg. split; [reflexivity|].
  subst icon bg.
  rewrite (create_radial_gradient_getpixel size size _ _ x y Hx Hy).
  destruct (gradient_raster size (gradient_center b) (gradient_edge b)
              ltac:(lia)) as (px & Hbg & Hpx).
  destruct (gradient_pixel_bands size size (gradient_center b)
              (gradient_edge b) x y ltac:(lia) Hgc Hge)
    as (r & g & bl & Hgp & Hr & Hg & Hbl).
  rewrite Hgp. rewrite <- (Hpx x y Hx Hy) in Hgp.
  rewrite getpixel_inside by (cbn; assumption).
  eexists. split; [reflexivity|].
  unfold create_app_icon. rewrite Hbg.
  pose proof (icon_mask_cases size (py_int (Qz size * 0.22)) x y) as Hmask.
  cbv zeta in Hmask.
  set (mask := draw_rounded_rectangle _ _ _ _) in *. clearbody mask.
  pose proof (foreground_cases
                (Image_new RGBA size size (Some [0; 0; 0; 0]))
                (Qz size / 2) (Qz size / 2) (Qz size / 1024 * 2.5)
                (recording_dot b) x y) as Hov.
  cbv zeta in Hov.
  set (overlay := draw_recording_dot _ _ _ _ _) in *. clearbody overlay.
  cbn -[zip_bands composite_pixel convert_pixel blend8 mask_value Z.sub
        tuple3].
  rewrite !Z.sub_0_r, !inside_true by assumption.
  rewrite Hgp.
  destruct (gradient_edge b) as [[e0 e1] e2].
  destruct Hge as (He0 & He1 & He2).
  destruct (recording_dot b) as [[d0 d1] d2].
  destruct Hdot as (Hd0 & Hd1 & Hd2).
  cbn [tuple3 app Image_new im_mode im_px ink default] in *.
  destruct Hmask as [-> | ->];
    cbn [mask_value last zip_bands convert_pixel];
    rewrite ?blend8_opaque, ?blend8_clear by assumption;
    destruct Hov as [-> | [-> | ->]];
    try (rewrite composite_pixel_opaque by assumption);
    try (unfold white; rewrite composite_pixel_opaque by lia);
    cbn [composite_pixel Z.eqb convert_pixel]; auto.
Qed.

Lemma create_app_icon_palette_witness :
  exists p : pixel,
    getpixel (create_app_icon 1024 nexuspvr) 100 900 = Some p /\
    (p = [233; 30; 99] \/ p = [255; 255; 255] \/
     getpixel (create_radial_gradient 1024 1024 (42, 107, 153) (15, 35, 60))
              100 900 = Some p \/
     p = [15; 35; 60]).
Proof.
  exact (proj2 (create_app_icon_palette 1024 nexuspvr 100 900
                  ltac:(cbn; lia) ltac:(cbn; lia) ltac:(cbn; lia)
                  ltac:(lia) ltac:(lia))).
Defined.

(** X5.  Every pixel of the launch logo of the gradient theme is either
    transparent black or fully opaque, and an opaque pixel has the
    recording-dot colour, is white, or is the pixel of the radial gradient
    at the same place: the logo has no half-transparent fringe. *)
Theorem create_launch_logo_palette (size : Z) (b : brand) (x y : Z) :
  valid_rgb (gradient_center b) -> valid_rgb (gradient_edge b) ->
  valid_rgb (recording_dot b) ->
  0 <= x < size -> 0 <= y < size ->
  let logo := create_launch_logo size b in
  let bg := create_radial_gradient size size (gradient_center b)
                                   (gradient_edge b) in
  im_mode logo = RGBA /\
  exists p : pixel,
    getpixel logo x y = Some p /\
    (p = [0; 0; 0; 0] \/
     exists c : pixel,
       p = c ++ [255] /\
       (c = tuple3 (recording_dot b) \/ c = [255; 255; 255] \/
        getpixel bg x y = Some c)).
Proof.
  intros Hgc Hge Hdot Hx Hy logo bg. split; [reflexivity|].
  subst logo bg.
  rewrite (create_radial_gradient_getpixel size size _ _ x y Hx Hy).
  destruct (gradient_raster size (gradient_center b) (gradient_edge b)
              ltac:(lia)) as (px & Hbg & Hpx).
  destruct (gradient_pixel_bands size size (gradient_center b)
              (gradient_edge b) x y ltac:(lia) Hgc Hge)
    as (r & g & bl & Hgp & Hr & Hg & Hbl).
  rewrite Hgp. rewrite <- (Hpx x y Hx Hy) in Hgp.
  assert (Hfw : im_width (create_launch_logo size b) = size) by reflexivity.
  assert (Hfh : im_height (create_launch_logo size b) = size) by reflexivity.
  rewrite getpixel_inside by (rewrite ?Hfw, ?Hfh; assumption).
  eexists. split; [reflexivity|].
  unfold create_launch_logo. rewrite Hbg.
  pose proof (icon_mask_cases size (py_int (Qz size * 0.22)) x y) as Hmask.
  cbv zeta in Hmask.
  set (mask := draw_rounded_rectangle _ _ _ _) in *. clearbody mask.
  match goal with
  | |- context [draw_recording_dot (draw_play_button ?i ?cx ?cy ?s white)
                                   ?cx ?cy ?s ?d] =>
      destruct (foreground_cases i cx cy s d x y) as [H | [H | H]];
      cbv zeta in H; rewrite H; clear H
  end.
  - right. destruct (recording_dot b) as [[d0 d1] d2].
    exists [d0; d1; d2]. split; [reflexivity | left; reflexivity].
  - right. exists [255; 255; 255].
    split; [reflexivity | right; left; reflexivity].
  - cbn -[zip_bands convert_pixel blend8 mask_value Z.sub tuple3 white].
    rewrite !Z.sub_0_r, !inside_true by assumption.
    rewrite Hgp.
    destruct Hmask as [-> | ->];
      cbn [mask_value last zip_bands convert_pixel app];
      rewrite ?blend8_opaque, ?blend8_clear by lia.
    + right. exists [r; g; bl]. split; [reflexivity | auto].
    + left. reflexivity.
Qed.

Lemma create_launch_logo_palette_witness :
  exists p : pixel,
    getpixel (create_launch_logo 120 nexuspvr) 60 3 = Some p /\
    (p = [0; 0; 0; 0] \/
     exists c : pixel,
       p = c ++ [255] /\
       (c = [233; 30; 99] \/ c = [255; 255; 255] \/
        getpixel (create_radial_gradient 120 120 (42, 107, 153) (15, 35, 60))
                 60 3 = Some c)).
Proof.
  exact (proj2 (create_launch_logo_palette 120 nexuspvr 60 3
                  ltac:(cbn; lia) ltac:(cbn; lia) ltac:(cbn; lia)
                  ltac:(lia) ltac:(lia))).
Defined.

(** X19.  The front layer of the tvOS icon of the gradient theme has the
    size asked for and holds three kinds of pixel only: transparent
    black, opaque white and the opaque recording-dot colour. *)
Theorem create_tvos_front_palette (width height : Z) (b : brand) (x y : Z) :
  valid_rgb (recording_dot b) ->
  0 <= x < width -> 0 <= y < height ->
  let front := create_tvos_front width height b in
  im_mode front = RGBA /\ im_width front = width /\
  im_height front = height /\
  exists p : pixel,
    getpixel front x y = Some p /\
    (p = [0; 0; 0; 0] \/ p = [255; 255; 255; 255] \/
     p = tuple3 (recording_dot b) ++ [255]).
Proof.
  intros _ Hx Hy front. subst front. repeat (split; [reflexivity|]).
  assert (Hfw : im_width (create_tvos_front width height b) = width)
    by reflexivity.
  assert (Hfh : im_height (create_tvos_front width height b) = height)
    by reflexivity.
  rewrite getpixel_inside by (rewrite ?Hfw, ?Hfh; assumption).
  eexists. split; [reflexivity|].
  unfold create_tvos_front.
  match goal with
  | |- context [draw_recording_dot (draw_play_button ?i ?cx ?cy ?s white)
                                   ?cx ?cy ?s ?d] =>
      destruct (foreground_cases i cx cy s d x y) as [H | [H | H]];
      cbv zeta in H; rewrite H; clear H
  end.
  - right. right. destruct (recording_dot b) as [[d0 d1] d2]. reflexivity.
  - right. left. reflexivity.
  - left. reflexivity.
Qed.

Lemma create_tvos_front_palette_witness :
  exists p : pixel,
    getpixel (create_tvos_front 400 240 nexuspvr) 200 120 = Some p /\
    (p = [0; 0; 0; 0] \/ p = [255; 255; 255; 255] \/ p = [233; 30; 99; 255]).
Proof.
  destruct (create_tvos_front_palette 400 240 nexuspvr 200 120
              ltac:(cbn; lia) ltac:(lia) ltac:(lia)) as (_ & _ & _ & Hp).
  exact Hp.
Defined.

(** ** More on the CRT radii *)

Lemma py_int_mono (a b : Q) : (a <= b)%Q -> py_int a <= py_int b.
Proof.
  destruct a as [n1 d1], b as [n2 d2]. unfold Qle, py_int. cbn [Qnum Qden].
  intros Hle.
  rewrite <- (Z.quot_mul_cancel_r n1 (Z.pos d1) (Z.pos d2)) by lia.
  rewrite <- (Z.quot_mul_cancel_r n2 (Z.pos d2) (Z.pos d1)) by lia.
  rewrite (Z.mul_comm (Z.pos d2) (Z.pos d1)).
  apply Z.quot_le_mono; lia.
Qed.

Lemma py_int_inject (z : Z) : py_int (inject_Z z) = z.
Proof. unfold py_int, inject_Z. cbn. apply Z.quot_1_r. Qed.

Lemma py_int_below_1 (q : Q) : (q < 1)%Q -> py_int q <= 0.
Proof.
  destruct q as [n d]. unfold Qlt, py_int. cbn [Qnum Qden]. intros Hlt.
  destruct (Z.le_gt_cases 0 n) as [Hn|Hn].
  - rewrite Z.quot_small by lia. lia.
  - replace n with (- (- n)) by lia. rewrite Z.quot_opp_l by lia.
    pose proof (Z.quot_pos (- n) (Z.pos d) ltac:(lia) ltac:(lia)). lia.
Qed.

Lemma crt_small_scale (s : Q) : py_int (200 * s) <= 32 -> (200 * s < 33)%Q.
Proof.
  intros Hs. destruct (Qlt_le_dec (200 * s) 33) as [Hlt|Hge]; [exact Hlt|].
  apply py_int_mono in Hge. change (py_int 33) with 33 in Hge. lia.
Qed.

Lemma crt_small_radii_are_one_aux (s : Q) :
  py_int (200 * s) <= 32 -> py_int (2 * s) <= 0 /\ py_int (3 * s) <= 0.
Proof.
  intros Hs. pose proof (crt_small_scale s Hs) as Hlt.
  split; apply py_int_below_1; Lqa.lra.
Qed.

(** X6.  Whenever the reference extent [int(200 * s)] is at most 32 the
    REC dot and the knobs have a radius of exactly one pixel: the
    proportional parts [int(2 * s)] and [int(3 * s)] of the reduced floors
    are never positive there. *)
Theorem crt_small_radii_are_one (s : Q) :
  py_int (200 * s) <= 32 -> crt_rec_r s = 1 /\ crt_kr s = 1.
Proof.
  intros Hs. destruct (crt_small_radii_are_one_aux s Hs) as [H2 H3].
  unfold crt_rec_r, crt_kr.
  replace (py_int (200 * s) <=? 32) with true by lia. lia.
Qed.

Lemma crt_small_radii_are_one_witness :
  crt_rec_r (32 # 200) = 1 /\ crt_kr (32 # 200) = 1.
Proof.
  apply (crt_small_radii_are_one (32 # 200)). vm_compute. discriminate.
Defined.

(** X7.  The radii of the REC dot and of the knobs never shrink when the
    scale grows, across the 32-pixel threshold as well; both are at least
    one pixel at every scale, and the knob radius is at least two pixels
    above the threshold. *)
Theorem crt_radii_monotone (s1 s2 : Q) :
  (s1 <= s2)%Q ->
  crt_rec_r s1 <= crt_rec_r s2 /\ crt_kr s1 <= crt_kr s2 /\
  1 <= crt_rec_r s1 /\ 1 <= crt_kr s1 /\
  (32 < py_int (200 * s1) -> 2 <= crt_kr s1).
Proof.
  intros Hle.
  assert (H200 : py_int (200 * s1) <= py_int (200 * s2))
    by (apply py_int_mono; Lqa.lra).
  assert (H3 : py_int (3 * s1) <= py_int (3 * s2))
    by (apply py_int_mono; Lqa.lra).
  assert (H4 : py_int (4 * s1) <= py_int (4 * s2))
    by (apply py_int_mono; Lqa.lra).
  unfold crt_rec_r, crt_kr.
  destruct (py_int (200 * s1) <=? 32) eqn:E1;
    destruct (py_int (200 * s2) <=? 32) eqn:E2; try lia.
  - destruct (crt_small_radii_are_one_aux s1) as [Ha Hb]; [lia|].
    destruct (crt_small_radii_are_one_aux s2) as [Hc Hd]; [lia|]. lia.
  - destruct (crt_small_radii_are_one_aux s1) as [Ha Hb]; [lia|]. lia.
Qed.

Lemma crt_radii_monotone_witness :
  crt_rec_r (32 # 200) <= crt_rec_r (1024 # 200) /\
  crt_kr (32 # 200) <= crt_kr (1024 # 200).
Proof.
  destruct (crt_radii_monotone (32 # 200) (1024 # 200) ltac:(discriminate))
    as (H1 & H2 & _).
  split; assumption.
Defined.

(** ** Colorset writers, once more *)

(** X10.  For a colour of components in [0, 1] the launch-background
    writer leaves, at its own path, the document given here character by
    character: it always carries a ["color"] object, with an alpha of
    ["1.000"] and the three [.3f] prints, each of which reads back as the
    float component rounded to three decimals and as the component written
    in the script when that has three decimals.  It is the very text the
    accent writer leaves for the same colour. *)
Theorem write_launch_bg_colorset_document (assets : path) (r g b : Q)
    (w : world) :
  (0 <= r)%Q -> (r <= 1)%Q -> (0 <= g)%Q -> (g <= 1)%Q ->
  (0 <= b)%Q -> (b <= 1)%Q ->
  let p := assets ++ ["LaunchBackground.colorset"; "Contents.json"]%string in
  let q := assets ++ ["AccentColor.colorset"; "Contents.json"]%string in
  exists w1 w2 : world,
    write_launch_bg_colorset assets (r, g, b) w = Ok tt w1 /\
    write_accent_colorset assets (Some (r, g, b)) w = Ok tt w2 /\
    w_files w1 !! p =
      Some (TextFile (expected_colorset (format_3f r) (format_3f g)
                        (format_3f b))) /\
    w_files w2 !! q = w_files w1 !! p /\
    is_dir w1 (dirname p) /\
    component_round_trips r /\ component_round_trips g /\
    component_round_trips b.
Proof.
  intros Hr0 Hr1 Hg0 Hg1 Hb0 Hb1 p q.
  destruct (colorset_text r g b Hr0 Hr1 Hg0 Hg1 Hb0 Hb1) as [Hl Ha].
  do 2 eexists.
  split; [apply runs_write_launch_bg_colorset|].
  split; [apply runs_write_accent_colorset|].
  fold p q. unfold apply_effect, text_effect.
  cbn [w_files w_dirs e_files e_dirs write_all fold_left fst snd].
  rewrite !lookup_insert_eq, Hl, Ha.
  split; [reflexivity|]. split; [reflexivity|].
  split; [apply is_dir_after_makedirs|].
  repeat split; apply format_3f_round_trips; assumption.
Qed.

Lemma write_launch_bg_colorset_document_witness :
  exists w1 : world,
    write_launch_bg_colorset ["NexusPVR"; "Assets.xcassets"]%string
      (launch_bg_rgb nexuspvr) empty_world = Ok tt w1 /\
    w_files w1 !! ["NexusPVR"; "Assets.xcassets";
                   "LaunchBackground.colorset"; "Contents.json"]%string =
      Some (TextFile (expected_colorset "0.059" "0.059" "0.059")).
Proof.
  destruct (write_launch_bg_colorset_document
              ["NexusPVR"; "Assets.xcassets"]%string 0.059 0.059 0.059
              empty_world
              ltac:(discriminate) ltac:(discriminate) ltac:(discriminate)
              ltac:(discriminate) ltac:(discriminate) ltac:(discriminate))
    as (w1 & w2 & H1 & _ & H3 & _).
  exists w1. split; [exact H1 | exact H3].
Defined.

Lemma list_to_set_twice (d : gset path) (l : list path) :
  d ∪ list_to_set (l ++ l) = d ∪ list_to_set l.
Proof. rewrite list_to_set_app_L, (idemp_L (∪)). reflexivity. Qed.

Lemma list_to_set_swap (d : gset path) (l1 l2 : list path) :
  d ∪ list_to_set (l1 ++ l2) = d ∪ list_to_set (l2 ++ l1).
Proof.
  rewrite !list_to_set_app_L.
  rewrite (comm_L (∪) (list_to_set l1) (list_to_set l2)). reflexivity.
Qed.

(** X11.  Writing a colorset replaces the document: after two accent
    writes the file system is as after the second alone, nothing of the
    first being left or appended to.  The two writers do not interfere:
    in either order they leave the same files and directories. *)
Theorem colorset_writes_compose (assets : path)
    (a1 a2 : option (Q * Q * Q)) (c : Q * Q * Q) (w : world) :
  exists w12 w2 wal wla : world,
    (write_accent_colorset assets a1 ≫=
       fun _ => write_accent_colorset assets a2) w = Ok tt w12 /\
    write_accent_colorset assets a2 w = Ok tt w2 /\
    same_fs w12 w2 /\
    (write_accent_colorset assets a2 ≫=
       fun _ => write_launch_bg_colorset assets c) w = Ok tt wal /\
    (write_launch_bg_colorset assets c ≫=
       fun _ => write_accent_colorset assets a2) w = Ok tt wla /\
    same_fs wal wla.
Proof.
  do 4 eexists.
  split.
  { apply (runs_bind _ _ tt tt); [apply runs_write_accent_colorset|].
    apply runs_write_accent_colorset. }
  split; [apply runs_write_accent_colorset|].
  split.
  { unfold same_fs, apply_effect, effect_app, text_effect.
    cbn [w_files w_dirs e_files e_dirs write_all fold_left fst snd app].
    split; [apply insert_insert_eq | apply list_to_set_twice]. }
  split.
  { apply (runs_bind _ _ tt tt); [apply runs_write_accent_colorset|].
    apply runs_write_launch_bg_colorset. }
  split.
  { apply (runs_bind _ _ tt tt); [apply runs_write_launch_bg_colorset|].
    apply runs_write_accent_colorset. }
  unfold same_fs, apply_effect, effect_app, text_effect.
  cbn [w_files w_dirs e_files e_dirs write_all fold_left fst snd app].
  split; [|apply list_to_set_swap].
  apply insert_insert_ne. intros Heq. apply app_inv_head in Heq. discriminate.
Qed.

(** ** The VHS theme and its source image *)

Lemma _place_vhs_on_canvas_stops `{Pillow} (script : path) (e : exn)
    (w : world) (canvas_w canvas_h : Z) (fraction : Q) (triangle : bool) :
  open_failure (VHS_SOURCE script) (w_files w !! VHS_SOURCE script) = Some e ->
  stopped_at_open script e w
    (_place_vhs_on_canvas script canvas_w canvas_h fraction triangle w).
Proof.
  intros He.
  unfold _place_vhs_on_canvas, _load_vhs_source, Image_open, mbind,
    script_bind.
  destruct (w_files w !! VHS_SOURCE script) as [[img|s]|];
    cbn in He; [discriminate | |]; injection He as <-;
    eexists; (split; [reflexivity|]); split; try reflexivity;
    split; reflexivity.
Qed.

(** X12.  Every composer of the VHS theme needs the source image: when it
    is missing they raise [FileNotFoundError], when it is not an image
    they raise [UnidentifiedImageError]; in both cases nothing has been
    written and the only event recorded is the attempt to open it. *)
Theorem vhs_composers_need_source `{Pillow} (script : path) (e : exn)
    (w : world) (size width height : Z) (b : brand) :
  open_failure (VHS_SOURCE script) (w_files w !! VHS_SOURCE script) = Some e ->
  stopped_at_open script e w (create_vhs_icon script size b w) /\
  stopped_at_open script e w
    (create_vhs_tvos_front script width height b w) /\
  stopped_at_open script e w (create_vhs_launch_logo script size b w) /\
  stopped_at_open script e w
    (create_vhs_shelf_image script width height b w).
Proof.
  intros He.
  pose proof (fun cw ch fr tri =>
    _place_vhs_on_canvas_stops script e w cw ch fr tri He) as Hstop.
  split; [|split; [apply Hstop | split; [apply Hstop|]]].
  - unfold create_vhs_icon, mbind, script_bind.
    destruct (Hstop size size 0.85%Q true) as (w' & -> & Hfs & Ht).
    exists w'. auto.
  - unfold create_vhs_shelf_image.
    destruct (gradient_center b) as [[gc0 gc1] gc2].
    unfold mbind, script_bind.
    destruct (Hstop width height 0.50%Q true) as (w' & -> & Hfs & Ht).
    exists w'. auto.
Qed.

Lemma vhs_composers_need_source_witness :
  stopped_at_open ["repo"; "scripts"; "generate_assets.py"]%string
    (FileNotFoundError ["repo"; "scripts"; "vhs_source.png"]%string)
    empty_world
    (@create_vhs_icon plain_pillow
       ["repo"; "scripts"; "generate_assets.py"]%string 1024 dispatcherpvr
       empty_world).
Proof.
  apply (@vhs_composers_need_source plain_pillow
           ["repo"; "scripts"; "generate_assets.py"]%string
           (FileNotFoundError ["repo"; "scripts"; "vhs_source.png"]%string)
           empty_world 1024 1024 1024 dispatcherpvr).
  reflexivity.
Defined.

(** ** Brand keys *)

(** X13.  [generate] knows the two brand keys only: called with any other
    key, the selector ["all"] included, it raises [KeyError] before it
    writes a file, makes a directory or calls a composer. *)
Theorem generate_unknown_brand `{Pillow} (script : path) (brand_key : string)
    (w : world) :
  brand_key <> "nexuspvr"%string -> brand_key <> "dispatcherpvr"%string ->
  generate script brand_key w = Raise (KeyError brand_key) w.
Proof.
  intros H1 H2. unfold generate, BRANDS. cbn [dict_get].
  apply not_eq_sym in H1, H2.
  apply String.eqb_neq in H1, H2. rewrite H1, H2. reflexivity.
Qed.

Lemma generate_unknown_brand_witness :
  @generate plain_pillow ["repo"; "scripts"; "generate_assets.py"]%string
    "all" empty_world = Raise (KeyError "all") empty_world.
Proof.
  apply (@generate_unknown_brand plain_pillow); discriminate.
Defined.

(** ** Runs for both brands *)

Lemma last_write_app (l1 l2 : list (path * file)) (p : path) :
  last_write (l1 ++ l2) p =
    match last_write l2 p with
    | Some f => Some f
    | None => last_write l1 p
    end.
Proof.
  induction l1 as [|[q f] l1 IH]; cbn.
  - destruct (last_write l2 p); reflexivity.
  - rewrite IH. destruct (last_write l2 p); reflexivity.
Qed.

Lemma fmap_app_cons_eq (root p s : path) (l xs : list path) :
  p = root ++ s -> l = app root <$> xs -> p :: l = app root <$> (s :: xs).
Proof. intros -> ->. reflexivity. Qed.

Lemma brand_paths_NoDup `{Pillow} (script : path) :
  NoDup ((manifest script false nexuspvr ++
          manifest script true dispatcherpvr).*1).
Proof.
  set (root := dirname (dirname script)).
  assert (Hs : exists suffixes : list path,
    (manifest script false nexuspvr ++
     manifest script true dispatcherpvr).*1 = (app root) <$> suffixes /\
    NoDup suffixes).
  { eexists. split.
    - unfold manifest, tvos_manifest, layer, launch_sizes, icon_sizes.
      cbv zeta. fold root.
      cbn [map app fmap list_fmap fst snd assets_dir nexuspvr dispatcherpvr].
      repeat (apply (fmap_app_cons_eq root);
              [rewrite <- !app_assoc; reflexivity|]).
      exact (eq_refl : [] = app root <$> []).
    - apply (bool_decide_unpack _). vm_compute. exact I. }
  destruct Hs as (suffixes & -> & Hnd).
  apply NoDup_fmap_2; [|exact Hnd].
  intros x y Hxy. apply app_inv_head in Hxy. exact Hxy.
Qed.

(** X15.  The two brands write to disjoint paths, so their runs are
    independent: in either order they leave the same files and
    directories, the 64 files of both manifests, and the run for one brand
    leaves every path of the other brand as it was. *)
Theorem brand_runs_are_independent `{Pillow} (script : path) (w : world) :
  let mn := manifest script false nexuspvr in
  let md := manifest script true dispatcherpvr in
  (forall p, p ∈ mn.*1 -> p ∉ md.*1) /\
  exists wn wd wnd wdn : world,
    generate script "nexuspvr" w = Ok tt wn /\
    generate script "dispatcherpvr" wn = Ok tt wnd /\
    generate script "dispatcherpvr" w = Ok tt wd /\
    generate script "nexuspvr" wd = Ok tt wdn /\
    same_fs wnd wdn /\
    (forall p f, (p, f) ∈ mn ++ md -> w_files wnd !! p = Some f) /\
    (forall p, p ∈ md.*1 -> w_files wn !! p = w_files w !! p) /\
    (forall p, p ∈ mn.*1 -> w_files wd !! p = w_files w !! p).
Proof.
  intros mn md.
  pose proof (brand_paths_NoDup script) as Hnd. fold mn md in Hnd.
  assert (Hdisj : forall p, p ∈ mn.*1 -> p ∉ md.*1).
  { rewrite fmap_app in Hnd. apply NoDup_app in Hnd as (_ & Hd & _).
    exact Hd. }
  split; [exact Hdisj|].
  destruct (generate_outcome script "nexuspvr" nexuspvr eq_refl)
    as (dn & Hn).
  destruct (generate_outcome script "dispatcherpvr" dispatcherpvr eq_refl)
    as (dd & Hd).
  change (manifest script (is_crt_key "nexuspvr") nexuspvr) with mn in Hn.
  change (manifest script (is_crt_key "dispatcherpvr") dispatcherpvr)
    with md in Hd.
  destruct (Hn w) as (wn & Hrn & Hdn & Hfn & _ & _ & Houtn).
  destruct (Hd wn) as (wnd & Hrnd & Hdnd & Hfnd & _).
  destruct (Hd w) as (wd & Hrd & Hdd & Hfd & _ & _ & Houtd).
  destruct (Hn wd) as (wdn & Hrdn & Hddn & Hfdn & _).
  exists wn, wd, wnd, wdn. repeat (split; [assumption|]).
  assert (Hlook : forall p,
    w_files wnd !! p =
      match last_write (mn ++ md) p with
      | Some f => Some f
      | None => w_files w !! p
      end).
  { intros p. rewrite Hfnd, Hfn, !write_all_lookup, last_write_app.
    destruct (last_write md p); reflexivity. }
  split; [|split; [|split]].
  - split.
    + apply map_eq. intros p. rewrite Hlook.
      rewrite Hfdn, Hfd, !write_all_lookup, last_write_app.
      destruct (last_write mn p) eqn:En, (last_write md p) eqn:Ed;
        try reflexivity.
      exfalso. apply (Hdisj p); apply last_write_elem; eauto.
    + rewrite Hdnd, Hdn, Hddn, Hdd.
      rewrite <- !(assoc_L (∪)).
      rewrite (comm_L (∪) (list_to_set dn) (list_to_set dd)). reflexivity.
  - intros p f Hin. rewrite Hlook.
    rewrite (last_write_NoDup (mn ++ md) p f Hnd Hin). reflexivity.
  - intros p Hp. apply Houtn. intros Hp'. exact (Hdisj p Hp' Hp).
  - intros p Hp. apply Houtd. exact (Hdisj p Hp).
Qed.

(** ** The colorsets of a run *)

Lemma manifest_colorsets `{Pillow} (script : path) (is_crt : bool)
    (b : brand) :
  let assets := dirname (dirname script) ++ assets_dir b in
  (assets ++ ["AccentColor.colorset"; "Contents.json"]%string,
   TextFile (json_dumps (accent_data (accent_rgb b)) +:+ newline))
    ∈ manifest script is_crt b /\
  (assets ++ ["LaunchBackground.colorset"; "Contents.json"]%string,
   TextFile (json_dumps (launch_bg_data (launch_bg_rgb b)) +:+ newline))
    ∈ manifest script is_crt b.
Proof.
  cbv zeta. unfold manifest. cbv zeta.
  split; do 6 (apply elem_of_app; right).
  - do 4 (apply list_elem_of_further). apply list_elem_of_here.
  - do 5 (apply list_elem_of_further). apply list_elem_of_here.
Qed.

(** X18.  The four colorset documents of the two brands, as a run leaves
    them.  ["nexuspvr"], which configures no
    accent, gets the accent document without a ["color"] object and a
    launch background of ["0.059"] in each component; ["dispatcherpvr"]
    gets the accent ["0.263"], ["0.561"], ["0.498"] and the launch
    background ["0.071"], ["0.071"], ["0.078"]. *)
Theorem generate_colorset_documents `{Pillow} (script : path) (w : world) :
  let root := dirname (dirname script) in
  let accent := ["AccentColor.colorset"; "Contents.json"]%string in
  let launch := ["LaunchBackground.colorset"; "Contents.json"]%string in
  exists wn wd : world,
    generate script "nexuspvr" w = Ok tt wn /\
    generate script "dispatcherpvr" w = Ok tt wd /\
    w_files wn !! (root ++ ["NexusPVR"; "Assets.xcassets"]%string ++ accent) =
      Some (TextFile expected_default_colorset) /\
    w_files wn !! (root ++ ["NexusPVR"; "Assets.xcassets"]%string ++ launch) =
      Some (TextFile (expected_colorset "0.059" "0.059" "0.059")) /\
    w_files wd !!
      (root ++ ["DispatcherPVR"; "Assets.xcassets"]%string ++ accent) =
      Some (TextFile (expected_colorset "0.263" "0.561" "0.498")) /\
    w_files wd !!
      (root ++ ["DispatcherPVR"; "Assets.xcassets"]%string ++ launch) =
      Some (TextFile (expected_colorset "0.071" "0.071" "0.078")).
Proof.
  intros root accent launch.
  destruct (generate_outcome script "nexuspvr" nexuspvr eq_refl)
    as (dn & Hn).
  destruct (generate_outcome script "dispatcherpvr" dispatcherpvr eq_refl)
    as (dd & Hd).
  destruct (Hn w) as (wn & Hrn & _ & _ & _ & Hinn & _).
  destruct (Hd w) as (wd & Hrd & _ & _ & _ & Hind & _).
  destruct (manifest_colorsets script (is_crt_key "nexuspvr") nexuspvr)
    as [Han Hln].
  destruct (manifest_colorsets script (is_crt_key "dispatcherpvr")
              dispatcherpvr) as [Had Hld].
  cbv zeta in Han, Hln, Had, Hld.
  apply Hinn in Han, Hln. apply Hind in Had, Hld.
  fold root in Han, Hln, Had, Hld.
  assert (Tan : json_dumps (accent_data (accent_rgb nexuspvr)) +:+ newline =
                expected_default_colorset) by (vm_compute; reflexivity).
  assert (Tln : json_dumps (launch_bg_data (launch_bg_rgb nexuspvr)) +:+
                newline = expected_colorset "0.059" "0.059" "0.059")
    by (vm_compute; reflexivity).
  assert (Tad : json_dumps (accent_data (accent_rgb dispatcherpvr)) +:+
                newline = expected_colorset "0.263" "0.561" "0.498")
    by (vm_compute; reflexivity).
  assert (Tld : json_dumps (launch_bg_data (launch_bg_rgb dispatcherpvr)) +:+
                newline = expected_colorset "0.071" "0.071" "0.078")
    by (vm_compute; reflexivity).
  rewrite Tan in Han. rewrite Tln in Hln. rewrite Tad in Had.
  rewrite Tld in Hld.
  exists wn, wd. split; [exact Hrn|]. split; [exact Hrd|].
  unfold accent, launch. cbn [assets_dir nexuspvr dispatcherpvr] in *.
  rewrite <- !app_assoc in Han, Hln, Had, Hld.
  repeat (split; [assumption|]). assumption.
Qed.
